(** * CloudSQLite: the Lambda handler and its DynamoDB lease lock

    A shallow embedding of the Lambda program of the repository (package
    [main] with [Handler], [acquireDynamoLock], [releaseDynamoLock],
    [downloadFromS3], [uploadToS3], [executeSQL], [createSuccessResponse]
    and [createErrorResponse]).

    The three services the program talks to become explicit state:
    the DynamoDB table [CloudSQLite-Locks] is a finite map from the hash key
    [database_name] to the stored item, the S3 bucket is a finite map from
    object key to content, and the local [/tmp] directory is a finite map
    from path to content.  Every request the program issues is also appended
    to a log of calls, so that statements about the order of requests can be
    made.  A request that the service does not serve returns an error and
    leaves the state unchanged; whether a call site is served is part of the
    environment of a run, as are the readings of the clock. *)

From Stdlib Require Import ZArith Lia Strings.Byte.
From stdpp Require Import base option list gmap strings pretty.

Local Open Scope Z_scope.

(** ** Time ([time.Time], [time.Duration])

    An instant is its number of nanoseconds since the Unix epoch and a
    duration is a number of nanoseconds.  [time.Now()] is far from the ends of
    the range of [int64], so no reading of the clock wraps around. *)

Definition Time := Z.
Definition Duration := Z.

Definition Second : Duration := 1000000000.
Definition Minute : Duration := 60 * Second.

Definition Unix (t : Time) : Z := t `div` Second.
Definition UnixNano (t : Time) : Z := t.
Definition Add (t : Time) (d : Duration) : Time := t + d.

(** ** Constants (lines 22-32) *)

Definition lockTableName : string := "CloudSQLite-Locks".
Definition s3BucketName : string := "cloudsqlite-databases".
Definition dbFileName : string := "database.db".
Definition lockTimeoutMinutes : Z := 5.

(** ** Data (lines 34-61) *)

Record LockItem := mkLockItem {
  DatabaseName : string;
  InstanceID : string;
  LeaseTimeout : Z;
  CreatedAt : Z
}.

Record APIRequest := mkAPIRequest {
  SQLStatement : string;
  ReqDatabaseName : string
}.

Definition blob := list byte.

(** Errors of the AWS SDK, by their code. *)
Inductive awserr :=
| ConditionalCheckFailedException
| NoSuchKey
| RequestFailure.

Definition awserr_Error (e : awserr) : string :=
  match e with
  | ConditionalCheckFailedException =>
      "ConditionalCheckFailedException: The conditional request failed"
  | NoSuchKey => "NoSuchKey: The specified key does not exist."
  | RequestFailure => "RequestError: send request failed"
  end.

(** Requests issued to DynamoDB, S3 and the local file system. *)
Inductive Call :=
| CGetItem (key : string)
| CDeleteItem (key instance_id : string)
| CPutItem (item : LockItem)
| CGetObject (key : string)
| CPutObject (key : string) (body : blob)
| CCreate (path : string)
| CRemove (path : string).

Record World := mkWorld {
  locks : gmap string LockItem;
  bucket : gmap string blob;
  tmp : gmap string blob;
  calls : list Call
}.

Definition set_locks (w : World) (l : gmap string LockItem) : World :=
  mkWorld l (bucket w) (tmp w) (calls w).
Definition set_bucket (w : World) (b : gmap string blob) : World :=
  mkWorld (locks w) b (tmp w) (calls w).
Definition set_tmp (w : World) (t : gmap string blob) : World :=
  mkWorld (locks w) (bucket w) t (calls w).
Definition record_call (w : World) (c : Call) : World :=
  mkWorld (locks w) (bucket w) (tmp w) (calls w ++ [c]).

(** ** DynamoDB requests, as the program configures them

    [up] tells whether the service serves the request. *)

(** [GetItem] on the key [database_name] (lines 129-138); the read gives
    the item the table holds at that moment. *)
Definition GetItem (up : bool) (w : World) (key : string)
  : (awserr + option LockItem) * World :=
  let w := record_call w (CGetItem key) in
  if up then (inr (locks w !! key), w) else (inl RequestFailure, w).

(** [PutItem] with [ConditionExpression: attribute_not_exists(database_name)]
    (lines 180-186): the write happens only when the table has no item under
    the item's key. *)
Definition PutItem (up : bool) (w : World) (item : LockItem)
  : option awserr * World :=
  let w := record_call w (CPutItem item) in
  if up then
    match locks w !! DatabaseName item with
    | Some _ => (Some ConditionalCheckFailedException, w)
    | None => (None, set_locks w (<[DatabaseName item := item]> (locks w)))
    end
  else (Some RequestFailure, w).

(** [DeleteItem] with [ConditionExpression: instance_id = :instance_id]
    (lines 197-212): the condition is false on a missing item. *)
Definition DeleteItem (up : bool) (w : World) (key instance_id : string)
  : option awserr * World :=
  let w := record_call w (CDeleteItem key instance_id) in
  if up then
    match locks w !! key with
    | Some it =>
        if String.eqb (InstanceID it) instance_id
        then (None, set_locks w (delete key (locks w)))
        else (Some ConditionalCheckFailedException, w)
    | None => (Some ConditionalCheckFailedException, w)
    end
  else (Some RequestFailure, w).

(** ** The lease lock (lines 126-220) *)

(** [releaseDynamoLock]: the error of [DeleteItem] is logged and returned. *)
Definition releaseDynamoLock (up : bool) (w : World)
    (databaseName instanceID : string) : option awserr * World :=
  DeleteItem up w databaseName instanceID.

Inductive AcquireError :=
| CheckFailed (e : awserr)
| Locked (holder : string) (until : Z)
| PutFailed (e : awserr).

Definition AcquireError_Error (e : AcquireError) : string :=
  match e with
  | CheckFailed e => "failed to check existing lock: " +:+ awserr_Error e
  | Locked holder until =>
      "database is locked by instance " +:+ holder +:+ " until " +:+ pretty until
  | PutFailed e => "failed to acquire lock (race condition): " +:+ awserr_Error e
  end.

(** What a run of [acquireDynamoLock] takes from its environment: whether
    its three requests are served and the two readings of the clock
    (lines 151 and 164). *)
Record LockEnv := mkLockEnv {
  get_up : bool;
  expire_up : bool;
  put_up : bool;
  check_now : Time;
  lease_now : Time
}.

(** The item written by [acquireDynamoLock] (lines 164-172). *)
Definition newLockItem (databaseName instanceID : string) (now : Time) : LockItem :=
  let leaseTimeout := Unix (Add now (lockTimeoutMinutes * Minute)) in
  mkLockItem databaseName instanceID leaseTimeout (Unix now).

(** Lines 163-192: create the item and put it. *)
Definition putNewLock (up : bool) (now : Time) (w : World)
    (databaseName instanceID : string) : option AcquireError * World :=
  let lockItem := newLockItem databaseName instanceID now in
  match PutItem up w lockItem with
  | (Some err, w) => (Some (PutFailed err), w)
  | (None, w) => (None, w)
  end.

(** The table is typed, so the failures of [UnmarshalMap] and [MarshalMap]
    (lines 146 and 175) do not arise. *)
Definition acquireDynamoLock (e : LockEnv) (w : World)
    (databaseName instanceID : string) : option AcquireError * World :=
  match GetItem (get_up e) w databaseName with
  | (inl err, w) => (Some (CheckFailed err), w)
  | (inr None, w) => putNewLock (put_up e) (lease_now e) w databaseName instanceID
  | (inr (Some existingLock), w) =>
      let currentTime := Unix (check_now e) in
      if LeaseTimeout existingLock >? currentTime then
        (Some (Locked (InstanceID existingLock) (LeaseTimeout existingLock)), w)
      else
        (* a failure to remove the expired lock is only logged *)
        let '(_, w) := releaseDynamoLock (expire_up e) w databaseName
                         (InstanceID existingLock) in
        putNewLock (put_up e) (lease_now e) w databaseName instanceID
  end.

(** ** Concurrent runs of [acquireDynamoLock]

    Several invocations run [acquireDynamoLock] at once.  DynamoDB serves
    one request at a time, so a concurrent run is an interleaving of the
    requests of the invocations; between its requests an invocation only
    remembers where it is in the function.  The table has time-to-live
    enabled on [lease_timeout] (main.tf), so DynamoDB itself may delete an
    item whose [lease_timeout] has passed. *)

Inductive Pc :=
| AtGetItem                          (* before line 138 *)
| AtExpire (holder : string)         (* before line 158 *)
| AtPutItem                          (* before line 186 *)
| Returned (r : option AcquireError).

Record Worker := mkWorker {
  w_db : string;
  w_id : string;
  w_pc : Pc
}.

Definition goto (k : Worker) (pc : Pc) : Worker :=
  mkWorker (w_db k) (w_id k) pc.

(** The next request of an invocation; [now] is the reading of the clock
    that goes with it (line 151 after [GetItem], line 164 before
    [PutItem]). *)
Definition worker_step (up : bool) (now : Time) (w : World) (k : Worker)
  : Worker * World :=
  match w_pc k with
  | AtGetItem =>
      match GetItem up w (w_db k) with
      | (inl err, w) => (goto k (Returned (Some (CheckFailed err))), w)
      | (inr None, w) => (goto k AtPutItem, w)
      | (inr (Some existingLock), w) =>
          if LeaseTimeout existingLock >? Unix now then
            (goto k (Returned (Some (Locked (InstanceID existingLock)
                                       (LeaseTimeout existingLock)))), w)
          else (goto k (AtExpire (InstanceID existingLock)), w)
      end
  | AtExpire holder =>
      let '(_, w) := releaseDynamoLock up w (w_db k) holder in
      (goto k AtPutItem, w)
  | AtPutItem =>
      let '(r, w) := putNewLock up now w (w_db k) (w_id k) in
      (goto k (Returned r), w)
  | Returned _ => (k, w)
  end.

(** Time-to-live: DynamoDB deletes an item whose [lease_timeout] is
    earlier than the current time. *)
Definition ttl_delete (now : Time) (w : World) (key : string) : World :=
  match locks w !! key with
  | Some it =>
      if LeaseTimeout it <? Unix now
      then set_locks w (delete key (locks w)) else w
  | None => w
  end.

Inductive Tick :=
| Run (who : nat) (up : bool) (now : Time)
| Ttl (key : string) (now : Time).

Definition tick_now (tk : Tick) : Time :=
  match tk with Run _ _ now => now | Ttl _ now => now end.

Definition tick_served (tk : Tick) : bool :=
  match tk with Run _ up _ => up | Ttl _ _ => true end.

Definition tick (tk : Tick) (s : World * list Worker) : World * list Worker :=
  match tk with
  | Run i up now =>
      match s.2 !! i with
      | Some k =>
          let '(k', w') := worker_step up now s.1 k in (w', <[i := k']> s.2)
      | None => s
      end
  | Ttl key now => (ttl_delete now s.1 key, s.2)
  end.

Fixpoint run (sched : list Tick) (s : World * list Worker)
  : World * list Worker :=
  match sched with
  | [] => s
  | tk :: sched => run sched (tick tk s)
  end.

(** [n] invocations about to call [acquireDynamoLock] on one database. *)
Definition start (databaseName : string) (ids : list string) : list Worker :=
  map (fun id => mkWorker databaseName id AtGetItem) ids.

Definition acquired (k : Worker) : Prop := w_pc k = Returned None.

(** The two ways [acquireDynamoLock] reports that another invocation has
    the lock: the item it read is still valid (line 153), or the
    condition of its [PutItem] failed (line 188). *)
Definition conflict (k : Worker) : Prop :=
  (exists holder until, w_pc k = Returned (Some (Locked holder until)))
  \/ w_pc k = Returned (Some (PutFailed ConditionalCheckFailedException)).

(** ** S3 and the local file system *)

(** [GetObject] (lines 226-231): a missing key is the error [NoSuchKey]. *)
Definition GetObject (up : bool) (w : World) (key : string)
  : (awserr + blob) * World :=
  let w := record_call w (CGetObject key) in
  if up then
    match bucket w !! key with
    | Some body => (inr body, w)
    | None => (inl NoSuchKey, w)
    end
  else (inl RequestFailure, w).

(** [PutObject] (lines 261-267): the object is replaced as a whole. *)
Definition PutObject (up : bool) (w : World) (key : string) (body : blob)
  : option awserr * World :=
  let w := record_call w (CPutObject key body) in
  if up then (None, set_bucket w (<[key := body]> (bucket w)))
  else (Some RequestFailure, w).

(** [os.Create]: the file is created or truncated. *)
Definition os_Create (err : option string) (w : World) (path : string)
  : option string * World :=
  let w := record_call w (CCreate path) in
  match err with
  | Some msg => (Some msg, w)
  | None => (None, set_tmp w (<[path := []]> (tmp w)))
  end.

(** [os.Remove]; the program drops its error. *)
Definition os_Remove (ok : bool) (w : World) (path : string) : World :=
  let w := record_call w (CRemove path) in
  if ok then set_tmp w (delete path (tmp w)) else w.

(** What a run of [Handler] takes from its environment, one field for each
    place where the program reads the clock or calls out. *)
Record Env := mkEnv {
  instance_now : Time;                (* line 94 *)
  lock_env : LockEnv;                 (* line 97 *)
  s3get_up : bool;                    (* line 231 *)
  create_err : option string;         (* line 238 *)
  copy_err : option (nat * string);   (* line 245: bytes written, error *)
  open_err : option string;           (* line 255 *)
  s3put_up : bool;                    (* line 267 *)
  remove_ok : bool;                   (* line 109 *)
  release_up : bool                   (* line 102 *)
}.

(** [downloadFromS3] (lines 223-251). *)
Definition downloadFromS3 (e : Env) (w : World) (databaseName : string)
  : (string + string) * World :=
  let localPath := "/tmp/" +:+ databaseName in
  match GetObject (s3get_up e) w databaseName with
  | (inl err, w) => (inl ("failed to get object from S3: " +:+ awserr_Error err), w)
  | (inr body, w) =>
      match os_Create (create_err e) w localPath with
      | (Some err, w) => (inl ("failed to create local file: " +:+ err), w)
      | (None, w) =>
          match copy_err e with
          | Some (n, err) =>
              (inl ("failed to copy S3 object to local file: " +:+ err),
               set_tmp w (<[localPath := take n body]> (tmp w)))
          | None => (inr localPath, set_tmp w (<[localPath := body]> (tmp w)))
          end
      end
  end.

(** [uploadToS3] (lines 254-274); [os.Open] fails on a missing file. *)
Definition uploadToS3 (e : Env) (w : World) (localPath databaseName : string)
  : option string * World :=
  match open_err e, tmp w !! localPath with
  | Some err, _ => (Some ("failed to open local file: " +:+ err), w)
  | None, None =>
      (Some ("failed to open local file: open " +:+ localPath
             +:+ ": no such file or directory"), w)
  | None, Some file =>
      match PutObject (s3put_up e) w databaseName file with
      | (Some err, w) =>
          (Some ("failed to upload object to S3: " +:+ awserr_Error err), w)
      | (None, w) => (None, w)
      end
  end.

(** ** The statement executor (lines 276-339) *)

(** [len(sqlStatement) > 6 && sqlStatement[:6] == "SELECT"] (line 285). *)
Definition isSelect (sqlStatement : string) : bool :=
  (6 <? String.length sqlStatement)%nat
  && String.eqb (String.substring 0 6 sqlStatement) "SELECT".

Section Program.

(** The SQLite engine is outside the program.  [value] is what a column of
    a row scans to.  Both calls run a statement on the content of the
    database file and give the new content of the file. *)
Variable value : Type.

Inductive QueryOutcome :=
| QueryOpenFailed (err : string)                     (* sql.Open *)
| QueryFailed (err : string)                         (* db.Query *)
| ColumnsFailed (err : string)                       (* rows.Columns *)
| QueryRows (columns : list string) (rows : list (string + list value)).
                                      (* per row: the error of Scan, or values *)

Inductive ExecOutcome :=
| ExecOpenFailed (err : string)                      (* sql.Open *)
| ExecFailed (err : string)                          (* db.Exec *)
| ExecDone (rowsAffected : Z).

Variable sqlite_Query : blob -> string -> QueryOutcome * blob.
Variable sqlite_Exec : blob -> string -> ExecOutcome * blob.

(** The JSON document of a request body, as [json.Unmarshal] reads it into
    an [APIRequest]; [None] is its error. *)
Variable json_Unmarshal : string -> option APIRequest.

Record SQLResult := mkSQLResult {
  Success : bool;
  Data : option (list (gmap string value));
  Message : string;
  Error : string
}.

(** What [json.Marshal] makes of a value of the program. *)
Inductive JSON :=
| JBool (b : bool)
| JNumber (n : Z)
| JString (s : string)
| JRows (rows : list (gmap string value)).

(** The members of the JSON object of a [SQLResult], by the tags of its
    fields (lines 56-61): [omitempty] drops a nil [Data] and an empty
    string.  (A query without rows has a nil slice in [Data], which is
    written as [null]; here it is the empty sequence of rows.) *)
Definition SQLResult_members (r : SQLResult) : list (string * JSON) :=
  [("success", JBool (Success r))]
  ++ match Data r with Some rows => [("data", JRows rows)] | None => [] end
  ++ (if String.eqb (Message r) "" then [] else [("message", JString (Message r))])
  ++ (if String.eqb (Error r) "" then [] else [("error", JString (Error r))]).

Record Response := mkResponse {
  StatusCode : Z;
  Headers : gmap string string;
  Body : SQLResult                 (* the value given to json.Marshal *)
}.

(** Lines 314-317: [row[col] = values[i]] for each column in turn. *)
Definition makeRow (columns : list string) (values : list value)
  : gmap string value :=
  foldl (fun row cv => <[cv.1 := cv.2]> row) ∅ (zip columns values).

(** Lines 302-319: the loop over [rows.Next()]. *)
Fixpoint scanRows (columns : list string) (rows : list (string + list value))
    (results : list (gmap string value)) : string + list (gmap string value) :=
  match rows with
  | [] => inr results
  | inl err :: _ => inl ("failed to scan row: " +:+ err)
  | inr values :: rows => scanRows columns rows (results ++ [makeRow columns values])
  end.

Definition executeSQL (w : World) (dbPath sqlStatement : string)
  : (string + SQLResult) * World :=
  let file := default [] (tmp w !! dbPath) in
  if isSelect sqlStatement then
    let '(out, file) := sqlite_Query file sqlStatement in
    let w := set_tmp w (<[dbPath := file]> (tmp w)) in
    match out with
    | QueryOpenFailed err => (inl ("failed to open database: " +:+ err), w)
    | QueryFailed err => (inl ("SELECT query failed: " +:+ err), w)
    | ColumnsFailed err => (inl ("failed to get columns: " +:+ err), w)
    | QueryRows columns rows =>
        match scanRows columns rows [] with
        | inl err => (inl err, w)
        | inr results =>
            (inr (mkSQLResult true (Some results)
                    ("Query executed successfully, returned "
                     +:+ pretty (length results) +:+ " rows") ""), w)
        end
    end
  else
    let '(out, file) := sqlite_Exec file sqlStatement in
    let w := set_tmp w (<[dbPath := file]> (tmp w)) in
    match out with
    | ExecOpenFailed err => (inl ("failed to open database: " +:+ err), w)
    | ExecFailed err => (inl ("query execution failed: " +:+ err), w)
    | ExecDone rowsAffected =>
        (inr (mkSQLResult true None
                ("Query executed successfully, " +:+ pretty rowsAffected
                 +:+ " rows affected") ""), w)
    end.

(** ** Responses (lines 341-367) *)

Definition jsonHeaders : gmap string string :=
  {[ "Content-Type" := "application/json" ]}.

Definition createSuccessResponse (data : SQLResult) : Response :=
  mkResponse 200 jsonHeaders data.

Definition createErrorResponse (statusCode : Z) (message : string) : Response :=
  mkResponse statusCode jsonHeaders (mkSQLResult false None "" message).

(** ** The handler (lines 75-124)

    Each [defer] is the last step of the part of the body that follows it. *)

(** Lines 111-123, followed by the deferred [os.Remove(localDBPath)]. *)
Definition Handler_fetched (e : Env) (w : World)
    (databaseName sqlStatement localDBPath : string) : Response * World :=
  let '(resp, w) :=
    match executeSQL w localDBPath sqlStatement with
    | (inl err, w) =>
        (createErrorResponse 500 ("SQL execution failed: " +:+ err), w)
    | (inr result, w) =>
        match uploadToS3 e w localDBPath databaseName with
        | (Some err, w) =>
            (createErrorResponse 500 ("Failed to upload database: " +:+ err), w)
        | (None, w) => (createSuccessResponse result, w)
        end
    end in
  (resp, os_Remove (remove_ok e) w localDBPath).

(** Lines 104-123, followed by the deferred [releaseDynamoLock]. *)
Definition Handler_locked (e : Env) (w : World)
    (databaseName sqlStatement instanceID : string) : Response * World :=
  let '(resp, w) :=
    match downloadFromS3 e w databaseName with
    | (inl err, w) =>
        (createErrorResponse 500 ("Failed to download database: " +:+ err), w)
    | (inr localDBPath, w) =>
        Handler_fetched e w databaseName sqlStatement localDBPath
    end in
  (resp, (releaseDynamoLock (release_up e) w databaseName instanceID).2).

Definition newInstanceID (now : Time) : string :=
  "lambda-" +:+ pretty (UnixNano now).

(** Lines 83-86: the default database name. *)
Definition requestDatabaseName (apiReq : APIRequest) : string :=
  if String.eqb (ReqDatabaseName apiReq) "" then dbFileName
  else ReqDatabaseName apiReq.

Definition Handler (e : Env) (w : World) (body : string) : Response * World :=
  match json_Unmarshal body with
  | None => (createErrorResponse 400 "Invalid JSON in request body", w)
  | Some apiReq =>
      let databaseName := requestDatabaseName apiReq in
      if String.eqb (SQLStatement apiReq) "" then
        (createErrorResponse 400 "SQL statement is required", w)
      else
        let instanceID := newInstanceID (instance_now e) in
        match acquireDynamoLock (lock_env e) w databaseName instanceID with
        | (Some err, w) =>
            (createErrorResponse 409
               ("Failed to acquire lock: " +:+ AcquireError_Error err), w)
        | (None, w) =>
            Handler_locked e w databaseName (SQLStatement apiReq) instanceID
        end
  end.

End Program.

Arguments QueryOpenFailed {value}.
Arguments QueryFailed {value}.
Arguments ColumnsFailed {value}.
Arguments QueryRows {value}.
Arguments mkSQLResult {value}.
Arguments Success {value}.
Arguments Data {value}.
Arguments Message {value}.
Arguments Error {value}.
Arguments JBool {value}.
Arguments JNumber {value}.
Arguments JString {value}.
Arguments JRows {value}.
Arguments SQLResult_members {value}.
Arguments mkResponse {value}.
Arguments StatusCode {value}.
Arguments Headers {value}.
Arguments Body {value}.
Arguments makeRow {value}.
Arguments scanRows {value}.
Arguments executeSQL {value}.
Arguments createSuccessResponse {value}.
Arguments createErrorResponse {value}.
Arguments Handler_fetched {value}.
Arguments Handler_locked {value}.
Arguments Handler {value}.

(** Which of the calls are uploads to the bucket. *)
Definition is_upload (c : Call) : bool :=
  match c with CPutObject _ _ => true | _ => false end.

Definition uploads (w : World) : list Call := filter is_upload (calls w).

Arguments uploads : simpl never.

(** ** Concurrent acquisition: what holds along a run

    [db] is the database the invocations compete for, [ids] their instance
    ids, and [t0] the second at which the run starts: the readings of the
    clock during the run stay within the lease duration of [t0]. *)

Section RunInvariant.

Variables (db : string) (ids : list string) (t0 : Z).

Definition in_window (tk : Tick) : Prop :=
  t0 <= Unix (tick_now tk) < t0 + 300.

(** No item, or an expired item of an instance that is not competing. *)
Definition free (o : option LockItem) : Prop :=
  match o with
  | None => True
  | Some x => LeaseTimeout x <= t0 /\ InstanceID x ∉ ids
  end.

(** An item written during the run. *)
Definition held (o : option LockItem) : Prop :=
  match o with
  | None => False
  | Some x => t0 + 300 <= LeaseTimeout x /\ InstanceID x ∈ ids
  end.

Definition wf_worker (k : Worker) : Prop :=
  w_db k = db /\ w_id k ∈ ids /\ forall h, w_pc k = AtExpire h -> h ∉ ids.

(** Where an invocation can be while nobody has acquired and every
    request has been served. *)
Definition waiting (o : option LockItem) (pc : Pc) : Prop :=
  match pc with
  | AtGetItem => True
  | AtExpire h => forall x, o = Some x -> InstanceID x = h
  | AtPutItem => o = None
  | Returned _ => False
  end.

Definition sole_winner (ws : list Worker) (i : nat) : Prop :=
  (exists k, ws !! i = Some k /\ acquired k)
  /\ forall j k, ws !! j = Some k -> acquired k -> j = i.

Definition losers_conflict (ws : list Worker) (i : nat) : Prop :=
  forall j k, ws !! j = Some k -> j <> i ->
    forall r, w_pc k = Returned r -> conflict k.

(** [sv] tells whether every request so far has been served. *)
Definition before_win (sv : bool) (o : option LockItem) (ws : list Worker) : Prop :=
  free o
  /\ forall j k, ws !! j = Some k ->
       ~ acquired k /\ (sv = true -> waiting o (w_pc k)).

Definition after_win (sv : bool) (o : option LockItem) (ws : list Worker) : Prop :=
  held o
  /\ exists i, sole_winner ws i /\ (sv = true -> losers_conflict ws i).

Definition inv (sv : bool) (s : World * list Worker) : Prop :=
  (forall j k, s.2 !! j = Some k -> wf_worker k)
  /\ (before_win sv (locks s.1 !! db) s.2 \/ after_win sv (locks s.1 !! db) s.2).

End RunInvariant.

(** An item written during the run is the lease of an invocation that has
    acquired: it carries the instance id of that invocation. *)
Definition item_of_winner (db : string) (t0 : Z) (s : World * list Worker) : Prop :=
  forall x, locks s.1 !! db = Some x -> t0 + 300 <= LeaseTimeout x ->
    exists i k, s.2 !! i = Some k /\ acquired k /\ InstanceID x = w_id k.

(** ** The leading keyword, as the specification reads it

    The specification asks for a classification that is the same for every
    letter case of the leading keyword and with blanks before it.
    [spec_begins_with_SELECT] is that reading of "the statement begins with
    the keyword SELECT".  It is no part of the program: [isSelect] is
    compared with it. *)

(** Space, tab, line feed, vertical tab, form feed, carriage return. *)
Definition is_blank (a : Ascii.ascii) : bool :=
  let n := Ascii.nat_of_ascii a in
  ((n =? 32) || ((9 <=? n) && (n <=? 13)))%nat.

Definition to_upper (a : Ascii.ascii) : Ascii.ascii :=
  let n := Ascii.nat_of_ascii a in
  if ((97 <=? n) && (n <=? 122))%nat then Ascii.ascii_of_nat (n - 32) else a.

Fixpoint skip_blanks (s : string) : string :=
  match s with
  | String a rest => if is_blank a then skip_blanks rest else s
  | EmptyString => s
  end.

Fixpoint upper_case (s : string) : string :=
  match s with
  | String a rest => String (to_upper a) (upper_case rest)
  | EmptyString => EmptyString
  end.

Definition spec_begins_with_SELECT (s : string) : bool :=
  String.eqb (upper_case (String.substring 0 6 (skip_blanks s))) "SELECT".

(** ** Plain database names

    The program uses the database name of the request as the key of the
    object, as the last element of the local path [/tmp/name] and, through
    that path, as the data source name given to [sql.Open] (line 279).  The
    driver reads what follows a question mark in a data source name as
    options and opens the file named by what comes before it, and a name
    with a slash, [.] or [..] is a path to a file that has other names too.
    The definitions above take keys and paths as they are written, which
    is what happens for a name that is a single path element without a
    question mark. *)
Fixpoint has_char (c : Ascii.ascii) (s : string) : bool :=
  match s with
  | String a rest => Ascii.eqb a c || has_char c rest
  | EmptyString => false
  end.

Definition plain_name (name : string) : bool :=
  negb (has_char (Ascii.ascii_of_nat 47) name)       (* slash *)
  && negb (has_char (Ascii.ascii_of_nat 63) name)    (* question mark *)
  && negb (String.eqb name "")
  && negb (String.eqb name ".")
  && negb (String.eqb name "..").

(** ** The body of a response (lines 343-349 and 359-365)

    Both constructors write [body, _ := json.Marshal(...)] and send
    [string(body)]: the error of [json.Marshal] is dropped, and the body is
    then empty.  [json.Marshal] fails on a value it cannot encode, such as
    an infinite float in a row; [encodable] tells which values of a column
    it can encode.  Booleans and strings are always encoded. *)

Section Marshal.

Context {value : Type}.
Variable encodable : value -> bool.

Definition row_encodable (row : gmap string value) : bool :=
  bool_decide (map_Forall (fun _ v => encodable v = true) row).

(** [None] is the error of [json.Marshal]. *)
Definition json_Marshal (r : SQLResult value) : option (list (string * JSON value)) :=
  match Data r with
  | Some rows =>
      if forallb row_encodable rows then Some (SQLResult_members r) else None
  | None => Some (SQLResult_members r)
  end.

(** The body sent with a response: the members of its JSON object, or
    [None] for the empty body. *)
Definition response_body (resp : Response value)
  : option (list (string * JSON value)) :=
  json_Marshal (Body resp).

End Marshal.

(** ** Concrete inputs *)

(** A table where instance [lambda-1] holds [database.db] until second 100. *)
Definition held_until_100 : World :=
  mkWorld {[ "database.db" := mkLockItem "database.db" "lambda-1" 100 (-200) ]}
          ∅ ∅ [].

Definition served_at (check lease : Z) : LockEnv :=
  mkLockEnv true true true (check * Second) (lease * Second).

(** A stand-in for the engine: a query gives two rows, the statement
    [INVALID SQL STATEMENT] fails and any other statement affects three
    rows. *)
Definition demo_Query (file : blob) (stmt : string) : QueryOutcome Z * blob :=
  (QueryRows ["id"; "v"] [inr [1; 10]; inr [2; 20]], file).

Definition demo_Exec (file : blob) (stmt : string) : ExecOutcome * blob :=
  if String.eqb stmt "INVALID SQL STATEMENT"
  then (ExecFailed "near INVALID: syntax error", file)
  else (ExecDone 3, file ++ [x2a]).

(** A stand-in for the JSON reader: the body is the statement, and the
    body [{] does not parse. *)
Definition demo_Unmarshal (body : string) : option APIRequest :=
  if String.eqb body "{" then None else Some (mkAPIRequest body "").

(** Every request served; the lock is taken at second [t]. *)
Definition demo_env_at (t : Z) : Env :=
  mkEnv (7 * Second) (served_at t t) true None None None true true true.

Definition demo_env : Env := demo_env_at 200.

(** The bucket holds an empty [database.db]; nobody holds the lock. *)
Definition demo_world : World := mkWorld ∅ {[ "database.db" := [] ]} ∅ [].

(** Nothing has been stored yet. *)
Definition fresh_world : World := mkWorld ∅ ∅ ∅ [].

Definition demo_Handler : Env -> World -> string -> Response Z * World :=
  Handler demo_Query demo_Exec demo_Unmarshal.

(** Two invocations race to reclaim the expired lease of [lambda-1]: both
    read it, then the second one deletes it and puts its own item before
    the first one goes on. *)
Definition reclaim_race : list Tick :=
  [Run 0 true (150 * Second); Run 1 true (150 * Second);
   Run 1 true (150 * Second); Run 1 true (151 * Second);
   Run 0 true (152 * Second); Run 0 true (152 * Second)].


(** Which of the calls are requests to the lock table. *)
Definition is_dynamo_call (c : Call) : bool :=
  match c with
  | CGetItem _ | CDeleteItem _ _ | CPutItem _ => true
  | _ => false
  end.

(** ** More concrete inputs *)

(** The object of [database.db] has three bytes; nobody holds the lock. *)
Definition stored_world : World :=
  mkWorld ∅ {[ "database.db" := [x53; x51; x4c]; "other.db" := [x01] ]} ∅ [].

(** [PutObject] is not served. *)
Definition demo_env_no_put : Env :=
  mkEnv (7 * Second) (served_at 200 200) true None None None false true true.

(** The copy to the local file stops after one byte. *)
Definition demo_env_copy_stops : Env :=
  mkEnv (7 * Second) (served_at 200 200) true None (Some (1%nat, "unexpected EOF"))
        None true true true.

(** The removal of an expired item is not served. *)
Definition no_expire_at (t : Z) : LockEnv :=
  mkLockEnv true false true (t * Second) (t * Second).

(** [PutItem] is not served. *)
Definition no_put_at (t : Z) : LockEnv :=
  mkLockEnv true true false (t * Second) (t * Second).

(** A stand-in for an engine that only reads. *)
Definition reading_Query (file : blob) (stmt : string) : QueryOutcome Z * blob :=
  (QueryRows ["n"] [inr [1]], file).

(** The release of the lock is not served. *)
Definition demo_env_no_release : Env :=
  mkEnv (7 * Second) (served_at 200 200) true None None None true true false.

(** An invocation reads the empty table and stalls; another one acquires
    at second 0; the first one writes at second 400, after the lease of the
    other has run out. *)
Definition slow_write : list Tick :=
  [Run 0 true 0; Run 1 true 0; Run 1 true 0; Run 0 true (400 * Second)].

(** A stand-in for [json.Marshal]: it cannot encode the numbers from 20 on. *)
Definition demo_encodable (v : Z) : bool := v <? 20.

(** * Properties *)

(** ** Time arithmetic *)

Lemma lease_duration : lockTimeoutMinutes * Minute = 300 * Second.
Proof. reflexivity. Qed.

Lemma Unix_Add_lease (now : Time) :
  Unix (Add now (lockTimeoutMinutes * Minute)) = Unix now + 300.
Proof.
  unfold Unix, Add. rewrite lease_duration.
  apply Z.div_add. unfold Second. lia.
Qed.

(** A whole second [s] is not later than the instant [now] exactly when it
    is not later than the second [now] falls in. *)
Lemma Unix_le (s : Z) (now : Time) : s <= Unix now <-> s * Second <= now.
Proof.
  unfold Unix, Second. split; intros H.
  - pose proof (Z.mul_div_le now 1000000000). lia.
  - apply Z.div_le_lower_bound; lia.
Qed.

Lemma newLockItem_fields (databaseName instanceID : string) (now : Time) :
  newLockItem databaseName instanceID now
  = mkLockItem databaseName instanceID (Unix now + 300) (Unix now).
Proof. unfold newLockItem. cbv zeta. by rewrite Unix_Add_lease. Qed.

(** ** The requests and the lock table *)

Lemma locks_record_call (w : World) (c : Call) : locks (record_call w c) = locks w.
Proof. reflexivity. Qed.

Lemma GetItem_served (w : World) (key : string) :
  GetItem true w key = (inr (locks w !! key), record_call w (CGetItem key)).
Proof. reflexivity. Qed.

Lemma GetItem_locks (up : bool) (w : World) (key : string) :
  locks (GetItem up w key).2 = locks w.
Proof. unfold GetItem. by destruct up. Qed.

Lemma DeleteItem_locks (up : bool) (w : World) (key id : string) :
  locks (DeleteItem up w key id).2
  = match locks w !! key with
    | Some it =>
        if up && String.eqb (InstanceID it) id then delete key (locks w)
        else locks w
    | None => locks w
    end.
Proof.
  unfold DeleteItem. cbn. destruct up; cbn; [|by destruct (locks w !! key)].
  destruct (locks w !! key) as [it|]; [|done].
  by destruct (String.eqb (InstanceID it) id).
Qed.

Lemma PutItem_locks (up : bool) (w : World) (item : LockItem) :
  locks (PutItem up w item).2
  = match locks w !! DatabaseName item with
    | Some _ => locks w
    | None => if up then <[DatabaseName item := item]> (locks w) else locks w
    end.
Proof.
  unfold PutItem. cbn. destruct up; cbn; by destruct (locks w !! DatabaseName item).
Qed.

Lemma PutItem_result (up : bool) (w : World) (item : LockItem) :
  (PutItem up w item).1
  = if up then
      match locks w !! DatabaseName item with
      | Some _ => Some ConditionalCheckFailedException
      | None => None
      end
    else Some RequestFailure.
Proof.
  unfold PutItem. cbn. destruct up; cbn; by destruct (locks w !! DatabaseName item).
Qed.

Lemma putNewLock_result (up : bool) (now : Time) (w : World) (db id : string) :
  (putNewLock up now w db id).1 = PutFailed <$> (PutItem up w (newLockItem db id now)).1.
Proof.
  unfold putNewLock. cbv zeta.
  by destruct (PutItem up w (newLockItem db id now)) as [[err|] w'].
Qed.

Lemma putNewLock_world (up : bool) (now : Time) (w : World) (db id : string) :
  (putNewLock up now w db id).2 = (PutItem up w (newLockItem db id now)).2.
Proof.
  unfold putNewLock. cbv zeta.
  by destruct (PutItem up w (newLockItem db id now)) as [[err|] w'].
Qed.

(** ** One run of [acquireDynamoLock] and of [releaseDynamoLock] *)

(** The outcome of a run whose three requests are served, by the item found
    under the key. *)
Lemma acquire_absent (e : LockEnv) (w : World) (db id : string) :
  get_up e = true -> put_up e = true ->
  locks w !! db = None ->
  (acquireDynamoLock e w db id).1 = None
  /\ locks (acquireDynamoLock e w db id).2
     = <[db := newLockItem db id (lease_now e)]> (locks w).
Proof.
  intros Hget Hput Hnone. unfold acquireDynamoLock.
  rewrite Hget, GetItem_served, Hnone.
  rewrite putNewLock_result, putNewLock_world, PutItem_result, PutItem_locks, Hput.
  cbn. by rewrite Hnone.
Qed.

Lemma acquire_valid (e : LockEnv) (w : World) (db id : string) (x : LockItem) :
  get_up e = true ->
  locks w !! db = Some x ->
  Unix (check_now e) < LeaseTimeout x ->
  (acquireDynamoLock e w db id).1 = Some (Locked (InstanceID x) (LeaseTimeout x))
  /\ locks (acquireDynamoLock e w db id).2 = locks w.
Proof.
  intros Hget Hx Hlt. unfold acquireDynamoLock.
  rewrite Hget, GetItem_served, Hx. cbv zeta.
  destruct (Z.gtb_spec (LeaseTimeout x) (Unix (check_now e))); [done | lia].
Qed.

Lemma acquire_expired (e : LockEnv) (w : World) (db id : string) (x : LockItem) :
  get_up e = true -> expire_up e = true -> put_up e = true ->
  locks w !! db = Some x ->
  LeaseTimeout x <= Unix (check_now e) ->
  (acquireDynamoLock e w db id).1 = None
  /\ locks (acquireDynamoLock e w db id).2
     = <[db := newLockItem db id (lease_now e)]> (locks w).
Proof.
  intros Hget Hexp Hput Hx Hle. unfold acquireDynamoLock.
  rewrite Hget, GetItem_served, Hx. cbv zeta.
  destruct (Z.gtb_spec (LeaseTimeout x) (Unix (check_now e))); [lia |].
  unfold releaseDynamoLock.
  destruct (DeleteItem (expire_up e) (record_call w (CGetItem db)) db (InstanceID x))
    as [r w1] eqn:Hdel.
  assert (Hw1 : locks w1 = delete db (locks w)).
  { change w1 with (r, w1).2. rewrite <- Hdel, DeleteItem_locks, Hexp.
    rewrite locks_record_call, Hx. cbn. by rewrite String.eqb_refl. }
  rewrite putNewLock_result, putNewLock_world, PutItem_result, PutItem_locks, Hput.
  cbn. rewrite Hw1, lookup_delete_eq. split; [done |].
  by rewrite insert_delete_eq.
Qed.

(** C2, as the program has it.  The write is conditioned on the absence of
    an item only: [PutItem] succeeds exactly when it is served and the
    table has no item under the key.  An expired item is not overwritten by
    the write; the run removes it beforehand with a delete fenced on its
    [instance_id].  For a run of [acquireDynamoLock] on its own whose three
    requests are served: the run acquires the lease if and only if the
    table has no item for the database or the [lease_timeout] of the item is
    not later than the instant of the check of line 151; the table then
    holds the item of the caller, with its instance id, [created_at] the
    second of the write and [lease_timeout] 300 seconds later.  An item
    whose [lease_timeout] is later than the instant of the check makes the
    run fail with the holder and expiry of the item and leaves the table as
    it was.  Nothing depends on the instance id of the caller. *)
Theorem acquire_iff_absent_or_expired (e : LockEnv) (w : World) (db id : string) :
  get_up e = true -> expire_up e = true -> put_up e = true ->
  (forall up w0 item,
     (PutItem up w0 item).1 = None
     <-> up = true /\ locks w0 !! DatabaseName item = None)
  /\ ((acquireDynamoLock e w db id).1 = None
      <-> locks w !! db = None
          \/ exists x, locks w !! db = Some x
               /\ LeaseTimeout x * Second <= check_now e)
  /\ ((acquireDynamoLock e w db id).1 = None ->
      locks (acquireDynamoLock e w db id).2
      = <[db := mkLockItem db id (Unix (lease_now e) + 300) (Unix (lease_now e))]>
          (locks w))
  /\ (forall x, locks w !! db = Some x -> check_now e < LeaseTimeout x * Second ->
      (acquireDynamoLock e w db id).1 = Some (Locked (InstanceID x) (LeaseTimeout x))
      /\ locks (acquireDynamoLock e w db id).2 = locks w).
Proof.
  intros Hget Hexp Hput. split.
  { intros up w0 item. rewrite PutItem_result.
    destruct up; [|by split; [|intros []]].
    destruct (locks w0 !! DatabaseName item); by split; [|intros []]. }
  destruct (locks w !! db) as [x|] eqn:Hx.
  - destruct (Z_le_gt_dec (LeaseTimeout x) (Unix (check_now e))) as [Hle|Hgt].
    + destruct (acquire_expired e w db id x Hget Hexp Hput Hx Hle) as [Hr Hl].
      rewrite Hr, Hl, newLockItem_fields. split; [split|split].
      * intros _. right. exists x. split; [done|]. by apply Unix_le.
      * done.
      * done.
      * intros y [= <-] Hlt. apply Unix_le in Hle. lia.
    + assert (Hlt : Unix (check_now e) < LeaseTimeout x) by lia.
      destruct (acquire_valid e w db id x Hget Hx Hlt) as [Hr Hl].
      rewrite Hr, Hl. split; [split|split].
      * done.
      * intros [? | (y & [= <-] & Hy)]; [done|]. apply Unix_le in Hy. lia.
      * done.
      * by intros y [= <-] _.
  - destruct (acquire_absent e w db id Hget Hput Hx) as [Hr Hl].
    rewrite Hr, Hl, newLockItem_fields. split; [split|split]; try done.
    intros _. by left.
Qed.

(** C3.  [releaseDynamoLock] either leaves the table as it is or deletes
    the item of the database, and it deletes only an item whose
    [instance_id] is the one given.  On an item of another instance it
    returns an error, which is the failed condition whenever the request
    is served, and the table is unchanged. *)
Theorem release_fenced (up : bool) (w : World) (db id : string) :
  (locks (releaseDynamoLock up w db id).2 = locks w
   \/ exists x, locks w !! db = Some x /\ InstanceID x = id
        /\ (releaseDynamoLock up w db id).1 = None
        /\ locks (releaseDynamoLock up w db id).2 = delete db (locks w))
  /\ (forall x, locks w !! db = Some x -> InstanceID x <> id ->
      (releaseDynamoLock up w db id).1
      = Some (if up then ConditionalCheckFailedException else RequestFailure)
      /\ locks (releaseDynamoLock up w db id).2 = locks w
      /\ locks (releaseDynamoLock up w db id).2 !! db = Some x).
Proof.
  unfold releaseDynamoLock, DeleteItem. cbn.
  destruct up; cbn.
  - destruct (locks w !! db) as [x|] eqn:Hx; cbn.
    + destruct (String.eqb_spec (InstanceID x) id) as [Heq|Hne]; cbn.
      * split; [right; by exists x | by intros y [= <-] ?].
      * split; [by left | by intros y [= <-] _].
    + split; [by left | done].
  - split; [by left |]. by intros x Hx _.
Qed.

Lemma acquire_stores_item (e : LockEnv) (w : World) (db id : string) :
  (acquireDynamoLock e w db id).1 = None ->
  locks (acquireDynamoLock e w db id).2 !! db
  = Some (newLockItem db id (lease_now e)).
Proof.
  unfold acquireDynamoLock.
  assert (Hput : forall w0,
    (putNewLock (put_up e) (lease_now e) w0 db id).1 = None ->
    locks (putNewLock (put_up e) (lease_now e) w0 db id).2 !! db
    = Some (newLockItem db id (lease_now e))).
  { intros w0. rewrite putNewLock_result, putNewLock_world, PutItem_result, PutItem_locks.
    cbn. destruct (put_up e); [|done].
    destruct (locks w0 !! db); [done|]. intros _. apply lookup_insert_eq. }
  destruct (GetItem (get_up e) w db) as [[err|[x|]] w1]; [done | | apply Hput].
  cbv zeta. destruct (LeaseTimeout x >? Unix (check_now e)); [done|].
  destruct (releaseDynamoLock (expire_up e) w1 db (InstanceID x)) as [r w2].
  apply Hput.
Qed.

(** C10.  The item stored by a successful [acquireDynamoLock] is the one of
    lines 167-172, and its [lease_timeout] is its [created_at] plus 300
    seconds, hence later than its [created_at]. *)
Theorem acquired_lease_is_created_plus_300 (e : LockEnv) (w : World) (db id : string) :
  (acquireDynamoLock e w db id).1 = None ->
  exists item,
    locks (acquireDynamoLock e w db id).2 !! db = Some item
    /\ DatabaseName item = db /\ InstanceID item = id
    /\ CreatedAt item = Unix (lease_now e)
    /\ LeaseTimeout item = CreatedAt item + 300
    /\ CreatedAt item < LeaseTimeout item.
Proof.
  intros Hok. exists (newLockItem db id (lease_now e)).
  split; [by apply acquire_stores_item |].
  rewrite newLockItem_fields. cbn. repeat split; lia.
Qed.

(** *** Concrete runs *)

Lemma acquire_iff_absent_or_expired_witness :
  (acquireDynamoLock (served_at 100 101) held_until_100 "database.db" "lambda-2").1
  = None
  /\ locks (acquireDynamoLock (served_at 100 101) held_until_100
              "database.db" "lambda-2").2
     = <["database.db" := mkLockItem "database.db" "lambda-2" 401 101]>
         (locks held_until_100)
  /\ (acquireDynamoLock (served_at 99 99) held_until_100 "database.db" "lambda-2").1
     = Some (Locked "lambda-1" 100)
  /\ ((PutItem true held_until_100
         (mkLockItem "database.db" "lambda-2" 401 101)).1 = None
      <-> true = true /\ locks held_until_100 !! "database.db" = None).
Proof.
  destruct (acquire_iff_absent_or_expired (served_at 100 101) held_until_100
              "database.db" "lambda-2" eq_refl eq_refl eq_refl)
    as (Hput & Hiff & Hitem & _).
  destruct (acquire_iff_absent_or_expired (served_at 99 99) held_until_100
              "database.db" "lambda-2" eq_refl eq_refl eq_refl)
    as (_ & _ & _ & Hvalid).
  assert (Hok : (acquireDynamoLock (served_at 100 101) held_until_100
                   "database.db" "lambda-2").1 = None).
  { apply Hiff. right. eexists. split; [reflexivity | vm_compute; discriminate]. }
  split; [exact Hok|]. split; [exact (Hitem Hok)|]. split.
  - apply (Hvalid (mkLockItem "database.db" "lambda-1" 100 (-200))); reflexivity.
  - exact (Hput true held_until_100 (mkLockItem "database.db" "lambda-2" 401 101)).
Defined.

(** C2, counterexample.  The record of [lambda-1] ran out at second 100.  A
    write at second 150 that the table serves is refused, because a record
    exists: the run of [lambda-2] whose removal of the record is not served
    fails on the condition of its write, and the table is as it was.  The
    same happens to an invocation that read an empty table and writes at
    second 400, after the lease that another invocation took at second 0
    has run out. *)
Lemma expired_record_refuses_write :
  locks held_until_100 !! "database.db"
  = Some (mkLockItem "database.db" "lambda-1" 100 (-200))
  /\ (PutItem true held_until_100
        (newLockItem "database.db" "lambda-2" (150 * Second))).1
     = Some ConditionalCheckFailedException
  /\ (acquireDynamoLock (no_expire_at 150) held_until_100
        "database.db" "lambda-2").1
     = Some (PutFailed ConditionalCheckFailedException)
  /\ locks (acquireDynamoLock (no_expire_at 150) held_until_100
              "database.db" "lambda-2").2
     = locks held_until_100
  /\ (run slow_write
        (fresh_world, start "database.db" ["lambda-2"; "lambda-3"])).2
     = [mkWorker "database.db" "lambda-2"
          (Returned (Some (PutFailed ConditionalCheckFailedException)));
        mkWorker "database.db" "lambda-3" (Returned None)]
  /\ locks (run slow_write
              (fresh_world, start "database.db" ["lambda-2"; "lambda-3"])).1
       !! "database.db"
     = Some (mkLockItem "database.db" "lambda-3" 300 0).
Proof. repeat split; vm_compute; reflexivity. Qed.

Lemma release_fenced_witness :
  (releaseDynamoLock true held_until_100 "database.db" "lambda-2").1
  = Some ConditionalCheckFailedException
  /\ locks (releaseDynamoLock true held_until_100 "database.db" "lambda-2").2
     = locks held_until_100.
Proof.
  destruct (release_fenced true held_until_100 "database.db" "lambda-2") as [_ H].
  destruct (H (mkLockItem "database.db" "lambda-1" 100 (-200))) as (Hr & Hl & _).
  - reflexivity.
  - discriminate.
  - exact (conj Hr Hl).
Defined.

Lemma acquired_lease_is_created_plus_300_witness :
  exists item,
    locks (acquireDynamoLock (served_at 100 101) held_until_100
             "database.db" "lambda-2").2 !! "database.db" = Some item
    /\ DatabaseName item = "database.db" /\ InstanceID item = "lambda-2"
    /\ CreatedAt item = Unix (101 * Second)
    /\ LeaseTimeout item = CreatedAt item + 300
    /\ CreatedAt item < LeaseTimeout item.
Proof.
  apply (acquired_lease_is_created_plus_300 (served_at 100 101) held_until_100
           "database.db" "lambda-2").
  vm_compute. reflexivity.
Defined.

(** ** What each step leaves alone *)

Lemma uploads_record_call (w : World) (c : Call) :
  is_upload c = false -> uploads (record_call w c) = uploads w.
Proof.
  intros Hc. unfold uploads. cbn. rewrite filter_app. cbn.
  rewrite Hc. cbn. apply app_nil_r.
Qed.

Lemma uploads_set_locks (w : World) (l : gmap string LockItem) :
  uploads (set_locks w l) = uploads w.
Proof. reflexivity. Qed.

Lemma uploads_set_tmp (w : World) (t : gmap string blob) :
  uploads (set_tmp w t) = uploads w.
Proof. reflexivity. Qed.

Ltac run_steps :=
  repeat (first [ progress cbn | case_match ]); simplify_eq;
  repeat split; try done;
  repeat (first [ rewrite uploads_set_locks | rewrite uploads_set_tmp
                | rewrite uploads_record_call by done ]);
  try done.

Lemma release_frame (up : bool) (w : World) (db id : string) :
  bucket (releaseDynamoLock up w db id).2 = bucket w
  /\ tmp (releaseDynamoLock up w db id).2 = tmp w
  /\ uploads (releaseDynamoLock up w db id).2 = uploads w
  /\ calls (releaseDynamoLock up w db id).2 = calls w ++ [CDeleteItem db id].
Proof. unfold releaseDynamoLock, DeleteItem. run_steps. Qed.

Lemma putNewLock_frame (up : bool) (now : Time) (w : World) (db id : string) :
  bucket (putNewLock up now w db id).2 = bucket w
  /\ tmp (putNewLock up now w db id).2 = tmp w
  /\ uploads (putNewLock up now w db id).2 = uploads w.
Proof. unfold putNewLock, PutItem. run_steps. Qed.

Lemma GetItem_frame (up : bool) (w : World) (key : string) :
  bucket (GetItem up w key).2 = bucket w
  /\ tmp (GetItem up w key).2 = tmp w
  /\ uploads (GetItem up w key).2 = uploads w.
Proof. unfold GetItem. run_steps. Qed.

Lemma acquire_frame (e : LockEnv) (w : World) (db id : string) :
  bucket (acquireDynamoLock e w db id).2 = bucket w
  /\ tmp (acquireDynamoLock e w db id).2 = tmp w
  /\ uploads (acquireDynamoLock e w db id).2 = uploads w.
Proof.
  unfold acquireDynamoLock.
  destruct (GetItem_frame (get_up e) w db) as (Hb & Ht & Hu).
  destruct (GetItem (get_up e) w db) as [[err|[x|]] w1]; cbn in Hb, Ht, Hu;
    [done | |].
  - cbv zeta. destruct (LeaseTimeout x >? Unix (check_now e)); [done|].
    destruct (release_frame (expire_up e) w1 db (InstanceID x)) as (Hb' & Ht' & Hu' & _).
    destruct (releaseDynamoLock _ _ _ _) as [r w2]. cbn in Hb', Ht', Hu'.
    destruct (putNewLock_frame (put_up e) (lease_now e) w2 db id) as (-> & -> & ->).
    by rewrite Hb', Ht', Hu'.
  - by destruct (putNewLock_frame (put_up e) (lease_now e) w1 db id) as (-> & -> & ->).
Qed.

Lemma download_frame (e : Env) (w : World) (db : string) :
  locks (downloadFromS3 e w db).2 = locks w
  /\ bucket (downloadFromS3 e w db).2 = bucket w
  /\ uploads (downloadFromS3 e w db).2 = uploads w.
Proof. unfold downloadFromS3, GetObject, os_Create. run_steps. Qed.

Lemma remove_frame (ok : bool) (w : World) (path : string) :
  locks (os_Remove ok w path) = locks w
  /\ bucket (os_Remove ok w path) = bucket w
  /\ uploads (os_Remove ok w path) = uploads w
  /\ (ok = true -> tmp (os_Remove ok w path) !! path = None).
Proof.
  unfold os_Remove. destruct ok; run_steps.
  intros _. apply lookup_delete_eq.
Qed.

Lemma upload_frame (e : Env) (w : World) (path db : string) :
  locks (uploadToS3 e w path db).2 = locks w
  /\ ((uploadToS3 e w path db).1 <> None ->
      bucket (uploadToS3 e w path db).2 = bucket w).
Proof. unfold uploadToS3, PutObject. run_steps. Qed.

Section HandlerFacts.

Context {value : Type}.
Variable sqlite_Query : blob -> string -> QueryOutcome value * blob.
Variable sqlite_Exec : blob -> string -> ExecOutcome * blob.
Variable json_Unmarshal : string -> option APIRequest.

Local Abbreviation executeSQL := (executeSQL sqlite_Query sqlite_Exec).
Local Abbreviation Handler_fetched := (Handler_fetched sqlite_Query sqlite_Exec).
Local Abbreviation Handler_locked := (Handler_locked sqlite_Query sqlite_Exec).
Local Abbreviation Handler := (Handler sqlite_Query sqlite_Exec json_Unmarshal).

Lemma executeSQL_frame (w : World) (path stmt : string) :
  locks (executeSQL w path stmt).2 = locks w
  /\ bucket (executeSQL w path stmt).2 = bucket w
  /\ uploads (executeSQL w path stmt).2 = uploads w.
Proof. unfold executeSQL. run_steps. Qed.

Lemma Handler_fetched_frame (e : Env) (w : World) (db stmt path : string) :
  locks (Handler_fetched e w db stmt path).2 = locks w.
Proof.
  unfold Handler_fetched.
  destruct (executeSQL_frame w path stmt) as (Hl & _).
  destruct (executeSQL w path stmt) as [[err|result] w1]; cbn in Hl.
  - cbn. by destruct (remove_frame (remove_ok e) w1 path) as (-> & _).
  - destruct (upload_frame e w1 path db) as (Hl' & _).
    destruct (uploadToS3 e w1 path db) as [[err|] w2]; cbn in Hl'; cbn;
      destruct (remove_frame (remove_ok e) w2 path) as (-> & _); congruence.
Qed.

(** The deferred release is the last request of the locked part, and no
    step before it touches the lock table. *)
Lemma Handler_locked_release (e : Env) (w : World) (db stmt id : string) :
  exists w2, locks w2 = locks w
    /\ (Handler_locked e w db stmt id).2
       = (releaseDynamoLock (release_up e) w2 db id).2.
Proof.
  unfold Handler_locked.
  destruct (download_frame e w db) as (Hl & _).
  destruct (downloadFromS3 e w db) as [[err|path] w1]; cbn in Hl.
  - by exists w1.
  - pose proof (Handler_fetched_frame e w1 db stmt path) as Hl'.
    destruct (Handler_fetched e w1 db stmt path) as [resp w2]; cbn in Hl'.
    exists w2. split; [congruence | done].
Qed.

Lemma Handler_locked_released (e : Env) (w : World) (db stmt id : string)
    (item : LockItem) :
  locks w !! db = Some item -> InstanceID item = id ->
  last (calls (Handler_locked e w db stmt id).2) = Some (CDeleteItem db id)
  /\ (release_up e = true -> locks (Handler_locked e w db stmt id).2 !! db = None).
Proof.
  intros Hitem Hid.
  destruct (Handler_locked_release e w db stmt id) as (w2 & Hl & ->).
  split.
  - destruct (release_frame (release_up e) w2 db id) as (_ & _ & _ & ->).
    apply last_snoc.
  - intros Hup. unfold releaseDynamoLock.
    rewrite DeleteItem_locks, Hl, Hitem, Hup, Hid, String.eqb_refl. cbn.
    apply lookup_delete_eq.
Qed.

Lemma Handler_acquired (e : Env) (w : World) (body : string)
    (apiReq : APIRequest) (w1 : World) :
  json_Unmarshal body = Some apiReq ->
  SQLStatement apiReq <> "" ->
  acquireDynamoLock (lock_env e) w (requestDatabaseName apiReq)
    (newInstanceID (instance_now e)) = (None, w1) ->
  Handler e w body
  = Handler_locked e w1 (requestDatabaseName apiReq) (SQLStatement apiReq)
      (newInstanceID (instance_now e)).
Proof.
  intros Hparse Hstmt Hacq. unfold Handler.
  rewrite Hparse. cbv zeta.
  destruct (String.eqb_spec (SQLStatement apiReq) ""); [done|].
  by rewrite Hacq.
Qed.

Lemma Handler_releases_last (e : Env) (w : World) (body : string)
    (apiReq : APIRequest) (w1 : World) :
  json_Unmarshal body = Some apiReq ->
  SQLStatement apiReq <> "" ->
  acquireDynamoLock (lock_env e) w (requestDatabaseName apiReq)
    (newInstanceID (instance_now e)) = (None, w1) ->
  last (calls (Handler e w body).2)
  = Some (CDeleteItem (requestDatabaseName apiReq) (newInstanceID (instance_now e)))
  /\ (release_up e = true ->
      locks (Handler e w body).2 !! requestDatabaseName apiReq = None).
Proof.
  intros Hparse Hstmt Hacq.
  rewrite (Handler_acquired e w body apiReq w1 Hparse Hstmt Hacq).
  pose proof (acquire_stores_item (lock_env e) w (requestDatabaseName apiReq)
                (newInstanceID (instance_now e))) as Hitem.
  rewrite Hacq in Hitem. cbn in Hitem.
  eapply Handler_locked_released; [by apply Hitem | done].
Qed.

(** C4.  Once [acquireDynamoLock] has succeeded, the last request the
    handler issues before it returns is the [DeleteItem] of
    [releaseDynamoLock] for its own instance id, whatever happens while
    it fetches, executes and publishes; when that request is served, the
    table holds no item for the database afterwards. *)
Theorem lease_released_on_every_exit (e : Env) (w : World) (body : string)
    (apiReq : APIRequest) (w1 : World) :
  json_Unmarshal body = Some apiReq ->
  SQLStatement apiReq <> "" ->
  acquireDynamoLock (lock_env e) w (requestDatabaseName apiReq)
    (newInstanceID (instance_now e)) = (None, w1) ->
  last (calls (Handler e w body).2)
  = Some (CDeleteItem (requestDatabaseName apiReq) (newInstanceID (instance_now e)))
  /\ (release_up e = true ->
      locks (Handler e w body).2 !! requestDatabaseName apiReq = None).
Proof. apply Handler_releases_last. Qed.

(** C5 as the program has it.  When [downloadFromS3] returns an error,
    whatever its cause (the object does not exist, [GetObject] is not
    served, the local file cannot be created, the copy of the body fails),
    the handler answers 500 with that error.  It runs no statement and
    publishes nothing: the state it leaves is that after the download
    followed by the release of its lease, the only request after the
    download; the bucket is as it was and the lease is gone when the release
    is served.  When it is [GetObject] that fails, the missing object
    included, the download is that one request: no local file is created,
    and the local files are as they were. *)
Theorem failed_fetch_aborts_and_releases (e : Env) (w : World) (body : string)
    (apiReq : APIRequest) (w1 : World) :
  json_Unmarshal body = Some apiReq ->
  SQLStatement apiReq <> "" ->
  acquireDynamoLock (lock_env e) w (requestDatabaseName apiReq)
    (newInstanceID (instance_now e)) = (None, w1) ->
  (forall err w2,
     downloadFromS3 e w1 (requestDatabaseName apiReq) = (inl err, w2) ->
     Handler e w body
     = (createErrorResponse 500 ("Failed to download database: " +:+ err),
        (releaseDynamoLock (release_up e) w2 (requestDatabaseName apiReq)
           (newInstanceID (instance_now e))).2)
     /\ bucket (Handler e w body).2 = bucket w
     /\ uploads (Handler e w body).2 = uploads w
     /\ calls (Handler e w body).2
        = calls w2 ++ [CDeleteItem (requestDatabaseName apiReq)
                         (newInstanceID (instance_now e))]
     /\ (release_up e = true ->
         locks (Handler e w body).2 !! requestDatabaseName apiReq = None))
  /\ (bucket w !! requestDatabaseName apiReq = None \/ s3get_up e = false ->
      downloadFromS3 e w1 (requestDatabaseName apiReq)
      = (inl ("failed to get object from S3: "
              +:+ awserr_Error (if s3get_up e then NoSuchKey else RequestFailure)),
         record_call w1 (CGetObject (requestDatabaseName apiReq)))
      /\ tmp (Handler e w body).2 = tmp w
      /\ calls (Handler e w body).2
         = calls w1 ++ [CGetObject (requestDatabaseName apiReq);
                        CDeleteItem (requestDatabaseName apiReq)
                          (newInstanceID (instance_now e))]).
Proof.
  intros Hparse Hstmt Hacq.
  pose proof (Handler_releases_last e w body apiReq w1 Hparse Hstmt Hacq)
    as [_ Hrel].
  rewrite (Handler_acquired e w body apiReq w1 Hparse Hstmt Hacq) in *.
  destruct (acquire_frame (lock_env e) w (requestDatabaseName apiReq)
              (newInstanceID (instance_now e))) as (Hb & Ht & Hu).
  rewrite Hacq in Hb, Ht, Hu. cbn in Hb, Ht, Hu.
  assert (Hfail : forall err w2,
    downloadFromS3 e w1 (requestDatabaseName apiReq) = (inl err, w2) ->
    Handler_locked e w1 (requestDatabaseName apiReq) (SQLStatement apiReq)
      (newInstanceID (instance_now e))
    = (createErrorResponse 500 ("Failed to download database: " +:+ err),
       (releaseDynamoLock (release_up e) w2 (requestDatabaseName apiReq)
          (newInstanceID (instance_now e))).2)).
  { intros err w2 Hdl. unfold Handler_locked. by rewrite Hdl. }
  split.
  - intros err w2 Hdl. rewrite (Hfail err w2 Hdl) in *. cbn [fst snd] in *.
    destruct (download_frame e w1 (requestDatabaseName apiReq)) as (_ & Hb2 & Hu2).
    rewrite Hdl in Hb2, Hu2. cbn in Hb2, Hu2.
    destruct (release_frame (release_up e) w2 (requestDatabaseName apiReq)
                (newInstanceID (instance_now e))) as (-> & _ & -> & ->).
    repeat split; [congruence | congruence | done].
  - intros Hfetch.
    assert (Hdl : downloadFromS3 e w1 (requestDatabaseName apiReq)
                  = (inl ("failed to get object from S3: "
                          +:+ awserr_Error (if s3get_up e then NoSuchKey
                                            else RequestFailure)),
                     record_call w1 (CGetObject (requestDatabaseName apiReq)))).
    { unfold downloadFromS3, GetObject. cbn. rewrite Hb.
      destruct Hfetch as [-> | ->]; [by destruct (s3get_up e) | done]. }
    split; [done|]. rewrite (Hfail _ _ Hdl). cbn [fst snd].
    destruct (release_frame (release_up e)
                (record_call w1 (CGetObject (requestDatabaseName apiReq)))
                (requestDatabaseName apiReq) (newInstanceID (instance_now e)))
      as (_ & -> & _ & ->).
    cbn. by rewrite <- app_assoc.
Qed.

(** C8.  The status code of the response, by the first step that fails:
    400 when the body does not parse or the statement is empty, 409 when
    [acquireDynamoLock] returns an error, 500 when the download, the
    statement or the upload fails, and 200 with the result of the
    statement otherwise. *)
Theorem Handler_status_mapping (e : Env) (w : World) (body : string) :
  (json_Unmarshal body = None -> StatusCode (Handler e w body).1 = 400)
  /\ (forall apiReq, json_Unmarshal body = Some apiReq ->
      (SQLStatement apiReq = "" -> StatusCode (Handler e w body).1 = 400)
      /\ (SQLStatement apiReq <> "" ->
          forall r w1,
            acquireDynamoLock (lock_env e) w (requestDatabaseName apiReq)
              (newInstanceID (instance_now e)) = (r, w1) ->
            (r <> None -> StatusCode (Handler e w body).1 = 409)
            /\ (r = None ->
                forall d w2,
                  downloadFromS3 e w1 (requestDatabaseName apiReq) = (d, w2) ->
                  match d with
                  | inl _ => StatusCode (Handler e w body).1 = 500
                  | inr path =>
                      forall x w3,
                        executeSQL w2 path (SQLStatement apiReq) = (x, w3) ->
                        match x with
                        | inl _ => StatusCode (Handler e w body).1 = 500
                        | inr result =>
                            forall u w4,
                              uploadToS3 e w3 path (requestDatabaseName apiReq)
                              = (u, w4) ->
                              match u with
                              | Some _ => StatusCode (Handler e w body).1 = 500
                              | None =>
                                  (Handler e w body).1
                                  = createSuccessResponse result
                                  /\ StatusCode (Handler e w body).1 = 200
                              end
                        end
                  end))).
Proof.
  unfold Handler. split.
  - by intros ->.
  - intros apiReq ->. cbv zeta. split.
    + by intros ->.
    + intros Hstmt r w1 Hacq.
      destruct (String.eqb_spec (SQLStatement apiReq) ""); [done|].
      rewrite Hacq. split.
      * by destruct r.
      * intros -> d w2 Hdl. unfold Handler_locked. rewrite Hdl.
        destruct d as [err|path]; [done|].
        intros x w3 Hex. unfold Handler_fetched. rewrite Hex.
        destruct x as [err|result]; [done|].
        intros u w4 Hup. rewrite Hup. by destruct u.
Qed.

(** C9.  When the statement fails, the handler answers 500 and has issued
    no [PutObject]: the bucket is as it was before the invocation.  The
    local copy is removed when [os.Remove] succeeds. *)
Theorem failed_execution_publishes_nothing (e : Env) (w : World) (body : string)
    (apiReq : APIRequest) (w1 w2 w3 : World) (path err : string) :
  json_Unmarshal body = Some apiReq ->
  SQLStatement apiReq <> "" ->
  acquireDynamoLock (lock_env e) w (requestDatabaseName apiReq)
    (newInstanceID (instance_now e)) = (None, w1) ->
  downloadFromS3 e w1 (requestDatabaseName apiReq) = (inr path, w2) ->
  executeSQL w2 path (SQLStatement apiReq) = (inl err, w3) ->
  (Handler e w body).1
  = createErrorResponse 500 ("SQL execution failed: " +:+ err)
  /\ bucket (Handler e w body).2 = bucket w
  /\ uploads (Handler e w body).2 = uploads w
  /\ (remove_ok e = true -> tmp (Handler e w body).2 !! path = None).
Proof.
  intros Hparse Hstmt Hacq Hdl Hex.
  rewrite (Handler_acquired e w body apiReq w1 Hparse Hstmt Hacq).
  unfold Handler_locked. rewrite Hdl. unfold Handler_fetched. rewrite Hex.
  cbn [fst snd].
  destruct (acquire_frame (lock_env e) w (requestDatabaseName apiReq)
              (newInstanceID (instance_now e))) as (Hb1 & _ & Hu1).
  rewrite Hacq in Hb1, Hu1. cbn in Hb1, Hu1.
  destruct (download_frame e w1 (requestDatabaseName apiReq)) as (_ & Hb2 & Hu2).
  rewrite Hdl in Hb2, Hu2. cbn in Hb2, Hu2.
  destruct (executeSQL_frame w2 path (SQLStatement apiReq)) as (_ & Hb3 & Hu3).
  rewrite Hex in Hb3, Hu3. cbn in Hb3, Hu3.
  destruct (remove_frame (remove_ok e) w3 path) as (_ & Hb4 & Hu4 & Ht4).
  destruct (release_frame (release_up e) (os_Remove (remove_ok e) w3 path)
              (requestDatabaseName apiReq) (newInstanceID (instance_now e)))
    as (Hb5 & Ht5 & Hu5 & _).
  split; [done|]. split; [congruence|]. split; [congruence|].
  intros Hok. rewrite Ht5. by apply Ht4.
Qed.

(** The rows of a result are the rows of the engine, in their order. *)
Lemma scanRows_ok (columns : list string) (rows : list (string + list value))
    (acc results : list (gmap string value)) :
  scanRows columns rows acc = inr results ->
  exists vals, rows = inr <$> vals /\ results = acc ++ (makeRow columns <$> vals).
Proof.
  revert acc. induction rows as [|[err|values] rows IH]; intros acc; cbn.
  - intros [= <-]. exists []. by rewrite app_nil_r.
  - done.
  - intros H. destruct (IH _ H) as (vals & -> & ->).
    exists (values :: vals). by rewrite <- app_assoc.
Qed.

(** C7 as the program has it.  A statement that executes successfully
    gives a result with [Success] true.  For a statement the program
    classifies as a query, [Data] is the sequence of rows of the engine,
    in order.  For any other statement [Data] is nil and the number of
    rows affected appears only inside the text of [Message]: the JSON
    object has the two members [success] and [message]. *)
Theorem executeSQL_result_shape (w w' : World) (path stmt : string)
    (result : SQLResult value) :
  executeSQL w path stmt = (inr result, w') ->
  Success result = true
  /\ ((isSelect stmt = true
       /\ exists columns vals,
           (sqlite_Query (default [] (tmp w !! path)) stmt).1
           = QueryRows columns (inr <$> vals)
           /\ Data result = Some (makeRow columns <$> vals)
           /\ Message result
              = "Query executed successfully, returned "
                +:+ pretty (length vals) +:+ " rows")
      \/ (isSelect stmt = false
          /\ exists rowsAffected,
              (sqlite_Exec (default [] (tmp w !! path)) stmt).1
              = ExecDone rowsAffected
              /\ Data result = None
              /\ Message result
                 = "Query executed successfully, " +:+ pretty rowsAffected
                   +:+ " rows affected"
              /\ SQLResult_members result
                 = [("success", JBool true);
                    ("message", JString (Message result))])).
Proof.
  unfold executeSQL. destruct (isSelect stmt).
  - destruct (sqlite_Query _ _) as [[err|err|err|columns rows] file]; try done.
    destruct (scanRows columns rows []) as [err|results] eqn:Hscan; [done|].
    intros [= <- <-]. split; [done|]. left. split; [done|].
    destruct (scanRows_ok _ _ _ _ Hscan) as (vals & -> & ->).
    exists columns, vals. cbn. by rewrite length_fmap.
  - destruct (sqlite_Exec _ _) as [[err|err|n] file]; try done.
    intros [= <- <-]. split; [done|]. right. split; [done|].
    by exists n.
Qed.

End HandlerFacts.

(** The test of line 285 on the text of the statement. *)
Lemma isSelect_iff_upper_prefix (sqlStatement : string) :
  isSelect sqlStatement = true
  <-> exists rest, rest <> "" /\ sqlStatement = "SELECT" +:+ rest.
Proof.
  unfold isSelect.
  destruct sqlStatement as [|a1 [|a2 [|a3 [|a4 [|a5 [|a6 [|a7 rest]]]]]]];
    try (split; [done | by intros ([|? ?] & ? & ?)]).
  rewrite andb_true_iff, String.eqb_eq. cbn. split.
  - intros [_ Heq]. exists (String a7 rest). split; [done|].
    cbv [String.append]. by simplify_eq.
  - intros (r & _ & Heq). cbv [String.append] in Heq. by simplify_eq.
Qed.

(** C6 as the program is designed.  The classification is a test on the
    text of the leading keyword, not on the effect of the statement: a
    statement that starts with the keyword [SELECT] in upper case at its
    first byte and goes on is run as a query, and whatever is run as a
    query begins with the keyword [SELECT], so a statement with another
    leading keyword is never run as a query. *)
Theorem isSelect_tests_leading_keyword :
  (forall rest, rest <> "" -> isSelect ("SELECT" +:+ rest) = true)
  /\ (forall sqlStatement,
        isSelect sqlStatement = true ->
        spec_begins_with_SELECT sqlStatement = true).
Proof.
  split.
  - intros rest Hrest. apply isSelect_iff_upper_prefix. by exists rest.
  - intros sqlStatement Hsel.
    apply isSelect_iff_upper_prefix in Hsel as (rest & Hrest & ->).
    destruct rest as [|a rest]; [done|]. reflexivity.
Qed.

(** ** Concurrent acquisition *)

Lemma worker_step_get (up : bool) (now : Time) (w : World) (k : Worker) :
  w_pc k = AtGetItem ->
  locks (worker_step up now w k).2 = locks w
  /\ (worker_step up now w k).1
     = goto k
         (if up then
            match locks w !! w_db k with
            | None => AtPutItem
            | Some x =>
                if LeaseTimeout x >? Unix now
                then Returned (Some (Locked (InstanceID x) (LeaseTimeout x)))
                else AtExpire (InstanceID x)
            end
          else Returned (Some (CheckFailed RequestFailure))).
Proof.
  intros Hpc. unfold worker_step, GetItem. rewrite Hpc. cbn.
  destruct up; [|done]. destruct (locks w !! w_db k) as [x|]; [|done].
  by destruct (LeaseTimeout x >? Unix now).
Qed.

Lemma worker_step_expire (up : bool) (now : Time) (w : World) (k : Worker)
    (h : string) :
  w_pc k = AtExpire h ->
  locks (worker_step up now w k).2 = locks (DeleteItem up w (w_db k) h).2
  /\ (worker_step up now w k).1 = goto k AtPutItem.
Proof.
  intros Hpc. unfold worker_step, releaseDynamoLock. rewrite Hpc.
  by destruct (DeleteItem up w (w_db k) h).
Qed.

Lemma worker_step_put (up : bool) (now : Time) (w : World) (k : Worker) :
  w_pc k = AtPutItem ->
  locks (worker_step up now w k).2
  = locks (PutItem up w (newLockItem (w_db k) (w_id k) now)).2
  /\ (worker_step up now w k).1
     = goto k (Returned (PutFailed <$>
                 (PutItem up w (newLockItem (w_db k) (w_id k) now)).1)).
Proof.
  intros Hpc. unfold worker_step. rewrite Hpc.
  pose proof (putNewLock_result up now w (w_db k) (w_id k)) as Hr.
  pose proof (putNewLock_world up now w (w_db k) (w_id k)) as Hw.
  destruct (putNewLock up now w (w_db k) (w_id k)) as [r w'].
  cbn in Hr, Hw. by subst.
Qed.

Lemma worker_step_returned (up : bool) (now : Time) (w : World) (k : Worker)
    (r : option AcquireError) :
  w_pc k = Returned r -> worker_step up now w k = (k, w).
Proof. intros Hpc. unfold worker_step. by rewrite Hpc. Qed.

Lemma tick_Run (i : nat) (up : bool) (now : Time) (w : World)
    (ws : list Worker) (k : Worker) :
  ws !! i = Some k ->
  tick (Run i up now) (w, ws)
  = ((worker_step up now w k).2, <[i := (worker_step up now w k).1]> ws).
Proof.
  intros Hk. unfold tick. cbn. rewrite Hk.
  by destruct (worker_step up now w k).
Qed.

Lemma lookup_insert_worker (ws : list Worker) (i j : nat) (k k' kj : Worker) :
  ws !! i = Some k ->
  <[i := k']> ws !! j = Some kj ->
  (j = i /\ kj = k') \/ (j <> i /\ ws !! j = Some kj).
Proof.
  intros Hi Hj. destruct (decide (j = i)) as [->|Hne].
  - left. rewrite list_lookup_insert_eq in Hj by (by eapply lookup_lt_Some).
    by simplify_eq.
  - right. by rewrite list_lookup_insert_ne in Hj.
Qed.

Lemma ttl_delete_lookup (now : Time) (w : World) (key db : string) :
  locks (ttl_delete now w key) !! db
  = match locks w !! db with
    | Some x =>
        if decide (key = db) then
          if LeaseTimeout x <? Unix now then None else Some x
        else Some x
    | None => None
    end.
Proof.
  unfold ttl_delete. destruct (decide (key = db)) as [->|Hne].
  - destruct (locks w !! db) as [x|] eqn:Hx; [|done].
    destruct (LeaseTimeout x <? Unix now); cbn; [apply lookup_delete_eq | done].
  - destruct (locks w !! key) as [y|]; [|by destruct (locks w !! db)].
    destruct (LeaseTimeout y <? Unix now); cbn;
      [rewrite lookup_delete_ne by done|]; by destruct (locks w !! db).
Qed.

(** *** One invocation alone *)

Lemma tick_solo (up : bool) (now : Time) (w : World) (k : Worker) :
  tick (Run 0 up now) (w, [k])
  = ((worker_step up now w k).2, [(worker_step up now w k).1]).
Proof. unfold tick. cbn. by destruct (worker_step up now w k). Qed.

Lemma step_AtGetItem (up : bool) (now : Time) (w : World) (db id : string) :
  worker_step up now w (mkWorker db id AtGetItem)
  = match GetItem up w db with
    | (inl err, w) => (mkWorker db id (Returned (Some (CheckFailed err))), w)
    | (inr None, w) => (mkWorker db id AtPutItem, w)
    | (inr (Some x), w) =>
        if LeaseTimeout x >? Unix now then
          (mkWorker db id
             (Returned (Some (Locked (InstanceID x) (LeaseTimeout x)))), w)
        else (mkWorker db id (AtExpire (InstanceID x)), w)
    end.
Proof. reflexivity. Qed.

Lemma step_AtExpire (up : bool) (now : Time) (w : World) (db id h : string) :
  worker_step up now w (mkWorker db id (AtExpire h))
  = (mkWorker db id AtPutItem, (releaseDynamoLock up w db h).2).
Proof.
  unfold worker_step. cbn. by destruct (releaseDynamoLock up w db h).
Qed.

Lemma step_AtPutItem (up : bool) (now : Time) (w : World) (db id : string) :
  worker_step up now w (mkWorker db id AtPutItem)
  = (mkWorker db id (Returned (putNewLock up now w db id).1),
     (putNewLock up now w db id).2).
Proof.
  unfold worker_step. cbn. by destruct (putNewLock up now w db id).
Qed.

(** Alone, the requests of an invocation are those of one call of
    [acquireDynamoLock]. *)
Lemma acquire_as_run (e : LockEnv) (w : World) (db id : string) :
  exists sched,
    sched `sublist_of`
      [Run 0 (get_up e) (check_now e); Run 0 (expire_up e) (check_now e);
       Run 0 (put_up e) (lease_now e)]
    /\ run sched (w, [mkWorker db id AtGetItem])
       = ((acquireDynamoLock e w db id).2,
          [mkWorker db id (Returned (acquireDynamoLock e w db id).1)]).
Proof.
  unfold acquireDynamoLock.
  destruct (GetItem (get_up e) w db) as [[err|[x|]] w1] eqn:Hget.
  - exists [Run 0 (get_up e) (check_now e)]. split.
    + apply sublist_skip, sublist_nil_l.
    + cbn [run]. by rewrite tick_solo, step_AtGetItem, Hget.
  - cbv zeta. destruct (LeaseTimeout x >? Unix (check_now e)) eqn:Hvalid.
    + exists [Run 0 (get_up e) (check_now e)]. split.
      * apply sublist_skip, sublist_nil_l.
      * cbn [run]. by rewrite tick_solo, step_AtGetItem, Hget, Hvalid.
    + exists [Run 0 (get_up e) (check_now e); Run 0 (expire_up e) (check_now e);
              Run 0 (put_up e) (lease_now e)]. split; [done|].
      cbn [run]. rewrite tick_solo, step_AtGetItem, Hget, Hvalid. cbn [fst snd].
      rewrite tick_solo, step_AtExpire. cbn [fst snd].
      rewrite tick_solo, step_AtPutItem. cbn [fst snd].
      by destruct (releaseDynamoLock (expire_up e) w1 db (InstanceID x)).
  - exists [Run 0 (get_up e) (check_now e); Run 0 (put_up e) (lease_now e)]. split.
    + apply sublist_skip, sublist_cons, sublist_skip, sublist_nil_l.
    + cbn [run]. rewrite tick_solo, step_AtGetItem, Hget. cbn [fst snd].
      by rewrite tick_solo, step_AtPutItem.
Qed.

(** *** The invariant of a concurrent run *)

Section MutualExclusion.

Variables (db : string) (ids : list string) (t0 : Z).

Local Abbreviation in_window := (in_window t0).
Local Abbreviation free := (free ids t0).
Local Abbreviation held := (held ids t0).
Local Abbreviation wf_worker := (wf_worker db ids).
Local Abbreviation before_win := (before_win ids t0).
Local Abbreviation after_win := (after_win ids t0).
Local Abbreviation inv := (inv db ids t0).

Lemma waiting_None (o : option LockItem) (pc : Pc) :
  waiting o pc -> waiting None pc.
Proof. by destruct pc. Qed.

Lemma wf_insert (ws : list Worker) (i : nat) (k k' : Worker) :
  (forall j kj, ws !! j = Some kj -> wf_worker kj) ->
  ws !! i = Some k -> wf_worker k' ->
  forall j kj, <[i := k']> ws !! j = Some kj -> wf_worker kj.
Proof.
  intros Hall Hi Hk' j kj Hj.
  destruct (lookup_insert_worker ws i j k k' kj Hi Hj) as [[_ ->] | [_ Hj']]; eauto.
Qed.

Lemma before_win_step (sv : bool) (o o' : option LockItem) (ws : list Worker)
    (i : nat) (k k' : Worker) :
  before_win sv o ws -> ws !! i = Some k ->
  free o' -> (o' = o \/ o' = None) ->
  ~ acquired k' -> (sv = true -> waiting o' (w_pc k')) ->
  before_win sv o' (<[i := k']> ws).
Proof.
  intros [_ Hall] Hi Hfree Ho Hk' Hw'. split; [done|].
  intros j kj Hj.
  destruct (lookup_insert_worker ws i j k k' kj Hi Hj) as [[_ ->] | [_ Hj']]; [done|].
  destruct (Hall j kj Hj') as [Hna Hw]. split; [done|].
  intros Hsv. destruct Ho as [-> | ->]; [by apply Hw | eapply waiting_None; by apply Hw].
Qed.

Lemma after_win_step (sv : bool) (o : option LockItem) (ws : list Worker)
    (i : nat) (k k' : Worker) :
  after_win sv o ws -> ws !! i = Some k ->
  ~ acquired k -> ~ acquired k' ->
  (sv = true -> forall r, w_pc k' = Returned r -> conflict k') ->
  after_win sv o (<[i := k']> ws).
Proof.
  intros [Hheld (i0 & [(k0 & Hi0 & Hk0) Hsole] & Hlose)] Hi Hk Hk' Hconf.
  split; [done|]. exists i0.
  assert (Hne : i0 <> i) by (intros ->; by simplify_eq).
  split; [split|].
  - exists k0. by rewrite list_lookup_insert_ne.
  - intros j kj Hj Hacq.
    destruct (lookup_insert_worker ws i j k k' kj Hi Hj) as [[_ ->] | [_ Hj']];
      [done | by eapply Hsole].
  - intros Hsv j kj Hj Hji r Hr.
    destruct (lookup_insert_worker ws i j k k' kj Hi Hj) as [[_ ->] | [_ Hj']];
      [by eapply Hconf | by eapply Hlose].
Qed.

Lemma DeleteItem_lookup (up : bool) (w : World) (key id : string) :
  locks (DeleteItem up w key id).2 !! key
  = match locks w !! key with
    | Some it => if up && String.eqb (InstanceID it) id then None else Some it
    | None => None
    end.
Proof.
  rewrite DeleteItem_locks. destruct (locks w !! key) as [it|] eqn:Hit; [|done].
  destruct (up && String.eqb (InstanceID it) id); [apply lookup_delete_eq | done].
Qed.

Lemma before_win_weaken (sv : bool) (o o' : option LockItem) (ws : list Worker) :
  before_win sv o ws -> free o' -> (o' = o \/ o' = None) ->
  before_win sv o' ws.
Proof.
  intros [_ Hall] Hfree Ho. split; [done|].
  intros j kj Hj. destruct (Hall j kj Hj) as [Hna Hw]. split; [done|].
  intros Hsv. destruct Ho as [-> | ->]; [by apply Hw | eapply waiting_None; by apply Hw].
Qed.

Lemma inv_tick (sv : bool) (tk : Tick) (s : World * list Worker) :
  in_window tk -> (sv = true -> tick_served tk = true) ->
  inv sv s -> inv sv (tick tk s).
Proof.
  intros Hwin Hsv [Hwf Hphase]. destruct s as [w ws]. cbn [fst snd] in *.
  unfold in_window in Hwin.
  destruct tk as [i up now | key now]; cbn in Hwin, Hsv.
  - destruct (ws !! i) as [k|] eqn:Hk;
      [| by (unfold tick; cbn; rewrite Hk; split)].
    rewrite (tick_Run i up now w ws k Hk). unfold inv. cbn [fst snd].
    destruct (Hwf i k Hk) as (Hdb & Hid & Hexp).
    destruct (w_pc k) as [|h| |r] eqn:Hpc.
    + destruct (worker_step_get up now w k Hpc) as [-> ->]. rewrite Hdb.
      split.
      * eapply wf_insert; [done..|]. split; [done|]. split; [done|].
        intros h. cbn. destruct up; [|done].
        destruct (locks w !! db) as [x|] eqn:Hx; [|done].
        destruct (Z.gtb_spec (LeaseTimeout x) (Unix now)); [done|].
        intros [= <-]. destruct Hphase as [[Hfree _] | [Hheld _]]; cbn in *; [tauto | lia].
      * destruct Hphase as [HA | HB]; [left | right].
        -- eapply before_win_step; [done | done | apply HA | by left | |].
           ++ unfold acquired. cbn. destruct up; [|done].
              destruct (locks w !! db) as [x|]; [|done].
              by destruct (LeaseTimeout x >? Unix now).
           ++ intros Hs. rewrite (Hsv Hs). cbn. destruct HA as [Hfree _].
              destruct (locks w !! db) as [x|] eqn:Hx; [|done].
              destruct (Z.gtb_spec (LeaseTimeout x) (Unix now)); cbn in *;
                [lia | by intros ? [= <-]].
        -- eapply after_win_step; [done | done | | |].
           ++ unfold acquired. by rewrite Hpc.
           ++ unfold acquired. cbn. destruct up; [|done].
              destruct (locks w !! db) as [x|]; [|done].
              by destruct (LeaseTimeout x >? Unix now).
           ++ intros Hs r. rewrite (Hsv Hs). cbn. destruct HB as [Hheld _].
              destruct (locks w !! db) as [x|] eqn:Hx; [|done].
              destruct (Z.gtb_spec (LeaseTimeout x) (Unix now)); cbn in *; [|lia].
              intros _. left. unfold conflict. cbn. eauto.
    + destruct (worker_step_expire up now w k h Hpc) as [-> ->]. rewrite Hdb.
      rewrite DeleteItem_lookup.
      split; [eapply wf_insert; [done..|]; by split |].
      destruct Hphase as [HA | HB]; [left | right].
      * eapply before_win_step; [done | done | | | done |].
        -- destruct HA as [Hfree _]. destruct (locks w !! db) as [x|]; [|done].
           by destruct (up && String.eqb (InstanceID x) h).
        -- destruct (locks w !! db) as [x|]; [|by left].
           destruct (up && String.eqb (InstanceID x) h); [by right | by left].
        -- intros Hs. rewrite (Hsv Hs). cbn.
           destruct HA as [_ Hall]. destruct (Hall i k Hk) as [_ Hw].
           specialize (Hw Hs). rewrite Hpc in Hw. cbn in Hw.
           destruct (locks w !! db) as [x|]; [|done].
           by rewrite (Hw x eq_refl), String.eqb_refl.
      * assert (Hsame : match locks w !! db with
                        | Some it => if up && String.eqb (InstanceID it) h
                                     then None else Some it
                        | None => None
                        end = locks w !! db).
        { destruct HB as [Hheld _]. destruct (locks w !! db) as [x|]; [|done].
          destruct Hheld as [_ Hin].
          destruct (String.eqb_spec (InstanceID x) h) as [Heq|Hne];
            [| by rewrite andb_false_r].
          subst h. by destruct (Hexp _ eq_refl). }
        rewrite Hsame. eapply after_win_step; [done | done | | done | done].
        unfold acquired. by rewrite Hpc.
    + destruct (worker_step_put up now w k Hpc) as [-> ->]. rewrite Hdb.
      rewrite PutItem_locks, PutItem_result. cbn [DatabaseName newLockItem].
      split; [eapply wf_insert; [done..|]; by split |].
      destruct (locks w !! db) as [x|] eqn:Hx.
      * rewrite Hx. destruct Hphase as [HA | HB]; [left | right].
        -- eapply before_win_step; [done | done | apply HA | by left | |].
           ++ unfold acquired. cbn. by destruct up.
           ++ intros Hs. destruct HA as [_ Hall]. destruct (Hall i k Hk) as [_ Hw].
              specialize (Hw Hs). by rewrite Hpc in Hw.
        -- eapply after_win_step; [done | done | | |].
           ++ unfold acquired. by rewrite Hpc.
           ++ unfold acquired. cbn. by destruct up.
           ++ intros Hs r. rewrite (Hsv Hs). cbn. intros _. by right.
      * destruct Hphase as [HA | [[] _]].
        destruct up.
        -- right. cbn. rewrite lookup_insert_eq. split.
           ++ rewrite newLockItem_fields. cbn. split; [lia | done].
           ++ exists i. destruct HA as [_ Hall]. split; [split|].
              ** eexists. split;
                   [apply list_lookup_insert_eq; by eapply lookup_lt_Some | done].
              ** intros j kj Hj Hacq.
                 destruct (lookup_insert_worker ws i j k _ kj Hk Hj)
                   as [[-> _] | [_ Hj']]; [done|].
                 by destruct (Hall j kj Hj') as [Hna _].
              ** intros Hs j kj Hj Hji r Hr.
                 destruct (lookup_insert_worker ws i j k _ kj Hk Hj)
                   as [[-> _] | [_ Hj']]; [done|].
                 destruct (Hall j kj Hj') as [_ Hw]. specialize (Hw Hs).
                 by rewrite Hr in Hw.
        -- left. rewrite Hx. eapply before_win_step; [done | done | done | by left | done |].
           intros Hs. by specialize (Hsv Hs).
    + rewrite (worker_step_returned up now w k r Hpc). cbn [fst snd].
      rewrite list_insert_id by done. by split.
  - unfold tick, inv. cbn [fst snd]. split; [done|].
    rewrite ttl_delete_lookup.
    destruct Hphase as [HA | HB]; [left | right].
    + eapply before_win_weaken; [done | |].
      * destruct HA as [Hfree _]. destruct (locks w !! db) as [x|]; [|done].
        destruct (decide (key = db)); [|done].
        by destruct (LeaseTimeout x <? Unix now).
      * destruct (locks w !! db) as [x|]; [|by left].
        destruct (decide (key = db)); [|by left].
        destruct (LeaseTimeout x <? Unix now); [by right | by left].
    + assert (Hsame : match locks w !! db with
                      | Some x => if decide (key = db) then
                                    if LeaseTimeout x <? Unix now then None else Some x
                                  else Some x
                      | None => None
                      end = locks w !! db).
      { destruct HB as [Hheld _]. destruct (locks w !! db) as [x|]; [|done].
        destruct (decide (key = db)); [|done].
        destruct (Z.ltb_spec (LeaseTimeout x) (Unix now)); [|done].
        cbn in Hheld. lia. }
      by rewrite Hsame.
Qed.

Lemma inv_run (sv : bool) (sched : list Tick) (s : World * list Worker) :
  Forall in_window sched ->
  (sv = true -> Forall (fun tk => tick_served tk = true) sched) ->
  inv sv s -> inv sv (run sched s).
Proof.
  revert s. induction sched as [|tk sched IH]; intros s Hwin Hsv Hinv; [done|].
  cbn. apply Forall_cons in Hwin as [Htk Hwin]. apply IH; [done | |].
  - intros Hs. by apply Forall_cons in Hsv as [_ ?].
  - apply inv_tick; [done | | done].
    intros Hs. by apply Forall_cons in Hsv as [? _].
Qed.

Lemma inv_start (sv : bool) (w : World) :
  free (locks w !! db) -> inv sv (w, start db ids).
Proof.
  intros Hfree.
  assert (Hst : forall j k, start db ids !! j = Some k ->
            exists id, ids !! j = Some id /\ k = mkWorker db id AtGetItem).
  { intros j k. unfold start. rewrite list_lookup_fmap.
    destruct (ids !! j) as [id|]; [|done]. intros [= <-]. by exists id. }
  split.
  - intros j k Hj. destruct (Hst j k Hj) as (id & Hid & ->).
    split; [done|]. split; [by eapply list_elem_of_lookup_2 | done].
  - left. split; [done|]. intros j k Hj.
    by destruct (Hst j k Hj) as (id & Hid & ->).
Qed.

End MutualExclusion.

Lemma worker_step_id (up : bool) (now : Time) (w : World) (k : Worker) :
  w_id (worker_step up now w k).1 = w_id k.
Proof.
  unfold worker_step. destruct (w_pc k); [| | |done].
  - destruct (GetItem up w (w_db k)) as [[err|[x|]] w']; [done | | done].
    by destruct (LeaseTimeout x >? Unix now).
  - by destruct (releaseDynamoLock up w (w_db k) holder).
  - by destruct (putNewLock up now w (w_db k) (w_id k)).
Qed.

Lemma run_ids (sched : list Tick) (s : World * list Worker) :
  w_id <$> (run sched s).2 = w_id <$> s.2.
Proof.
  revert s. induction sched as [|tk sched IH]; intros [w ws]; [done|].
  cbn [run]. rewrite IH. destruct tk as [i up now | key now]; [|done].
  destruct (ws !! i) as [k|] eqn:Hk; [|by (unfold tick; cbn; rewrite Hk)].
  rewrite (tick_Run i up now w ws k Hk). cbn [snd].
  rewrite list_fmap_insert, worker_step_id.
  apply list_insert_id. by rewrite list_lookup_fmap, Hk.
Qed.

(** C1 as the program has it.  [acquireDynamoLock] is a read, a fenced
    delete of the expired item and a put whose condition
    [attribute_not_exists] the table evaluates when it writes.  Take any
    number of invocations that run it at once on one database, in any
    interleaving of their requests and of time-to-live deletions, where
    the table has no item for the database or an expired item of an
    instance that is not among them, and the clock readings stay within
    the lease duration.  Then at most one invocation acquires, whichever
    requests fail; and when every request is served and every invocation
    has returned, one invocation has acquired and each of the others has
    returned a conflict. *)
Theorem acquire_mutual_exclusion (db : string) (ids : list string) (t0 : Z)
    (w : World) (sched : list Tick) :
  free ids t0 (locks w !! db) ->
  Forall (in_window t0) sched ->
  w_id <$> (run sched (w, start db ids)).2 = ids
  /\ (forall i j ki kj,
       (run sched (w, start db ids)).2 !! i = Some ki ->
       (run sched (w, start db ids)).2 !! j = Some kj ->
       acquired ki -> acquired kj -> i = j)
  /\ (ids <> [] ->
      Forall (fun tk => tick_served tk = true) sched ->
      (forall j k, (run sched (w, start db ids)).2 !! j = Some k ->
         exists r, w_pc k = Returned r) ->
      held ids t0 (locks (run sched (w, start db ids)).1 !! db)
      /\ exists i k,
          (run sched (w, start db ids)).2 !! i = Some k /\ acquired k
          /\ forall j k', (run sched (w, start db ids)).2 !! j = Some k' ->
               j <> i -> conflict k').
Proof.
  intros Hfree Hwin.
  assert (Hids : w_id <$> (run sched (w, start db ids)).2 = ids).
  { rewrite run_ids. cbn. unfold start. rewrite <- list_fmap_compose.
    apply list_fmap_id. }
  split; [done|]. split.
  - pose proof (inv_run db ids t0 false sched _ Hwin ltac:(done)
                  (inv_start db ids t0 false w Hfree)) as [_ [[_ Hall] | [_ Hwon]]].
    + intros i j ki kj Hi _ Hacq _. by destruct (Hall i ki Hi).
    + destruct Hwon as (i0 & [_ Hsole] & _).
      intros i j ki kj Hi Hj Hai Haj.
      by rewrite (Hsole i ki Hi Hai), (Hsole j kj Hj Haj).
  - intros Hne Hserved Hdone.
    pose proof (inv_run db ids t0 true sched _ Hwin (fun _ => Hserved)
                  (inv_start db ids t0 true w Hfree)) as [_ [[_ Hall] | [Hheld Hwon]]].
    + destruct ids as [|id ids']; [done|].
      destruct ((run sched (w, start db (id :: ids'))).2) as [|k ws] eqn:Hws;
        [done|].
      destruct (Hall 0%nat k eq_refl) as [_ Hwait].
      destruct (Hdone 0%nat k eq_refl) as [r Hr].
      specialize (Hwait eq_refl). by rewrite Hr in Hwait.
    + destruct Hwon as (i0 & [(k0 & Hi0 & Hk0) _] & Hlose).
      split; [done|].
      exists i0, k0. split; [done|]. split; [done|].
      intros j k' Hj Hji. destruct (Hdone j k' Hj) as [r Hr].
      by eapply (Hlose eq_refl).
Qed.

Lemma acquire_mutual_exclusion_witness :
  exists i k,
    (run reclaim_race
       (held_until_100, start "database.db" ["lambda-2"; "lambda-3"])).2 !! i
    = Some k
    /\ acquired k
    /\ forall j k',
         (run reclaim_race
            (held_until_100, start "database.db" ["lambda-2"; "lambda-3"])).2 !! j
         = Some k' ->
         j <> i -> conflict k'.
Proof.
  destruct (acquire_mutual_exclusion "database.db" ["lambda-2"; "lambda-3"] 100
              held_until_100 reclaim_race) as (_ & _ & Hone).
  - unfold free.
    replace (locks held_until_100 !! "database.db")
      with (Some (mkLockItem "database.db" "lambda-1" 100 (-200)))
      by reflexivity.
    cbn. split; [lia|]. intros Hin.
    apply elem_of_cons in Hin as [Heq|Hin]; [discriminate|].
    apply elem_of_cons in Hin as [Heq|Hin]; [discriminate|].
    by apply elem_of_nil in Hin.
  - repeat constructor; vm_compute; congruence.
  - destruct Hone as [_ Hone]; [| | | exact Hone].
    + discriminate.
    + repeat constructor.
    + intros [|[|j]] k; vm_compute; intros [= <-]; eexists; reflexivity.
Defined.

(** C1, counterexample.  One run of [acquireDynamoLock] on an expired item
    issues three requests, and the check of the item is made by the
    program between the first and the second.  In the race both
    invocations pass that check on the same expired item; the first one
    has decided to reclaim, and yet its write fails, because the second
    one has acquired between its check and its write. *)
Lemma acquire_is_not_one_request :
  calls (acquireDynamoLock (served_at 150 150) held_until_100
           "database.db" "lambda-2").2
  = [CGetItem "database.db"; CDeleteItem "database.db" "lambda-1";
     CPutItem (mkLockItem "database.db" "lambda-2" 450 150)]
  /\ w_pc <$> (run (take 2 reclaim_race)
                 (held_until_100, start "database.db" ["lambda-2"; "lambda-3"])).2
     = [AtExpire "lambda-1"; AtExpire "lambda-1"]
  /\ w_pc <$> (run reclaim_race
                 (held_until_100, start "database.db" ["lambda-2"; "lambda-3"])).2
     = [Returned (Some (PutFailed ConditionalCheckFailedException));
        Returned None].
Proof. repeat split; vm_compute; reflexivity. Qed.

(** ** Concrete runs of the handler *)

Lemma lease_released_on_every_exit_witness :
  (demo_Handler demo_env demo_world "INVALID SQL STATEMENT").1
  = createErrorResponse 500
      "SQL execution failed: query execution failed: near INVALID: syntax error"
  /\ last (calls (demo_Handler demo_env demo_world "INVALID SQL STATEMENT").2)
     = Some (CDeleteItem "database.db" "lambda-7000000000")
  /\ locks (demo_Handler demo_env demo_world "INVALID SQL STATEMENT").2
       !! "database.db" = None.
Proof.
  split; [vm_compute; reflexivity|].
  edestruct (lease_released_on_every_exit demo_Query demo_Exec demo_Unmarshal
               demo_env demo_world "INVALID SQL STATEMENT"
               (mkAPIRequest "INVALID SQL STATEMENT" "")) as [Hlast Hrel].
  - reflexivity.
  - discriminate.
  - vm_compute. reflexivity.
  - split; [exact Hlast | exact (Hrel eq_refl)].
Defined.

(** C5, counterexample.  On a bucket without the object, a statement that
    the engine would execute gets the answer 500: the handler issues
    [GetObject], creates no local file and releases the lock. *)
Lemma missing_object_aborts :
  StatusCode (demo_Handler demo_env fresh_world
                "CREATE TABLE logs(id INTEGER PRIMARY KEY, message TEXT)").1 = 500
  /\ Error (Body (demo_Handler demo_env fresh_world
                   "CREATE TABLE logs(id INTEGER PRIMARY KEY, message TEXT)").1)
     = "Failed to download database: failed to get object from S3: NoSuchKey: The specified key does not exist."
  /\ bucket (demo_Handler demo_env fresh_world
               "CREATE TABLE logs(id INTEGER PRIMARY KEY, message TEXT)").2 = ∅
  /\ calls (demo_Handler demo_env fresh_world
              "CREATE TABLE logs(id INTEGER PRIMARY KEY, message TEXT)").2
     = [CGetItem "database.db";
        CPutItem (mkLockItem "database.db" "lambda-7000000000" 500 200);
        CGetObject "database.db";
        CDeleteItem "database.db" "lambda-7000000000"].
Proof. repeat split; vm_compute; reflexivity. Qed.

Lemma failed_fetch_aborts_and_releases_witness :
  ((demo_Handler demo_env fresh_world "SELECT 1").1
   = createErrorResponse 500
       "Failed to download database: failed to get object from S3: NoSuchKey: The specified key does not exist."
   /\ bucket (demo_Handler demo_env fresh_world "SELECT 1").2 = ∅
   /\ tmp (demo_Handler demo_env fresh_world "SELECT 1").2 = ∅
   /\ locks (demo_Handler demo_env fresh_world "SELECT 1").2 !! "database.db" = None)
  /\ ((demo_Handler demo_env_copy_stops stored_world "SELECT 1").1
      = createErrorResponse 500
          "Failed to download database: failed to copy S3 object to local file: unexpected EOF"
      /\ bucket (demo_Handler demo_env_copy_stops stored_world "SELECT 1").2
         = bucket stored_world
      /\ uploads (demo_Handler demo_env_copy_stops stored_world "SELECT 1").2 = []
      /\ locks (demo_Handler demo_env_copy_stops stored_world "SELECT 1").2
           !! "database.db" = None).
Proof.
  split.
  - destruct (failed_fetch_aborts_and_releases demo_Query demo_Exec demo_Unmarshal
                demo_env fresh_world "SELECT 1" (mkAPIRequest "SELECT 1" "")
                (acquireDynamoLock (lock_env demo_env) fresh_world
                   "database.db" "lambda-7000000000").2)
      as [Hany Hget].
    + reflexivity.
    + discriminate.
    + vm_compute. reflexivity.
    + destruct Hget as (Hdl & Ht & _); [by left|].
      destruct (Hany _ _ Hdl) as (Hresp & Hb & _ & _ & Hrel).
      split; [exact (f_equal fst Hresp)|].
      split; [exact Hb|]. split; [exact Ht | exact (Hrel eq_refl)].
  - destruct (failed_fetch_aborts_and_releases demo_Query demo_Exec demo_Unmarshal
                demo_env_copy_stops stored_world "SELECT 1"
                (mkAPIRequest "SELECT 1" "")
                (acquireDynamoLock (lock_env demo_env_copy_stops) stored_world
                   "database.db" "lambda-7000000000").2)
      as [Hany _].
    + reflexivity.
    + discriminate.
    + vm_compute. reflexivity.
    + destruct (Hany "failed to copy S3 object to local file: unexpected EOF"
                  (downloadFromS3 demo_env_copy_stops
                     (acquireDynamoLock (lock_env demo_env_copy_stops) stored_world
                        "database.db" "lambda-7000000000").2 "database.db").2)
        as (Hresp & Hb & Hu & _ & Hrel); [vm_compute; reflexivity|].
      split; [exact (f_equal fst Hresp)|].
      split; [exact Hb|]. split; [exact Hu | exact (Hrel eq_refl)].
Defined.

(** C6, counterexample.  A lower-case keyword or a leading blank changes
    the classification: such a query is run as a statement that returns
    no rows. *)
Lemma lower_case_select_is_not_a_query :
  isSelect "SELECT 1" = true
  /\ isSelect "select 1" = false
  /\ isSelect " SELECT 1" = false
  /\ (executeSQL demo_Query demo_Exec demo_world "/tmp/database.db" "select 1").1
     = inr (mkSQLResult true None
              "Query executed successfully, 3 rows affected" "").
Proof. repeat split; vm_compute; reflexivity. Qed.

Lemma isSelect_tests_leading_keyword_witness :
  isSelect "SELECT 1" = true
  /\ spec_begins_with_SELECT "SELECT 1" = true
  /\ isSelect "INSERT INTO t VALUES (1)" = false.
Proof.
  destruct isSelect_tests_leading_keyword as [Hup Hkey].
  split; [apply (Hup " 1"); discriminate|].
  split; [apply Hkey, (Hup " 1"); discriminate|].
  destruct (isSelect "INSERT INTO t VALUES (1)") eqn:Hsel; [|reflexivity].
  apply Hkey in Hsel. vm_compute in Hsel. discriminate.
Defined.

(** C7, counterexample.  The JSON object of the result of a successful
    update has no member [affected] and no number at all. *)
Lemma affected_count_is_not_a_member :
  exists result,
    (executeSQL demo_Query demo_Exec demo_world "/tmp/database.db"
       "UPDATE t SET v = 0").1 = inr result
    /\ SQLResult_members result
       = [("success", JBool true);
          ("message", JString "Query executed successfully, 3 rows affected")]
    /\ forall key n, (key, JNumber n) ∉ SQLResult_members result.
Proof.
  eexists. split; [vm_compute; reflexivity|]. split; [reflexivity|].
  intros key n Hin. cbn in Hin.
  apply elem_of_cons in Hin as [Heq|Hin]; [discriminate|].
  apply elem_of_cons in Hin as [Heq|Hin]; [discriminate|].
  by apply elem_of_nil in Hin.
Qed.

Lemma executeSQL_result_shape_witness :
  Success (mkSQLResult (value := Z) true None
             "Query executed successfully, 3 rows affected" "") = true
  /\ (isSelect "UPDATE t SET v = 0" = false
      /\ exists rowsAffected,
          (demo_Exec (default [] (tmp demo_world !! "/tmp/database.db"))
             "UPDATE t SET v = 0").1 = ExecDone rowsAffected).
Proof.
  destruct (executeSQL_result_shape demo_Query demo_Exec demo_world
              (executeSQL demo_Query demo_Exec demo_world "/tmp/database.db"
                 "UPDATE t SET v = 0").2
              "/tmp/database.db" "UPDATE t SET v = 0"
              (mkSQLResult true None
                 "Query executed successfully, 3 rows affected" ""))
    as [Hok [[Hsel _] | [Hsel (n & Hn & _)]]].
  - vm_compute. reflexivity.
  - discriminate Hsel.
  - split; [exact Hok|]. split; [exact Hsel|]. exists n. exact Hn.
Defined.

Lemma Handler_status_mapping_witness :
  StatusCode (demo_Handler demo_env demo_world "{").1 = 400
  /\ StatusCode (demo_Handler (demo_env_at 50) held_until_100 "SELECT 1").1 = 409.
Proof.
  split.
  - destruct (Handler_status_mapping demo_Query demo_Exec demo_Unmarshal
                demo_env demo_world "{") as [H _].
    apply H. reflexivity.
  - destruct (Handler_status_mapping demo_Query demo_Exec demo_Unmarshal
                (demo_env_at 50) held_until_100 "SELECT 1") as [_ H].
    destruct (H (mkAPIRequest "SELECT 1" "") eq_refl) as [_ Hstmt].
    assert (Hne : SQLStatement (mkAPIRequest "SELECT 1" "") <> "")
      by discriminate.
    destruct (Hstmt Hne (Some (Locked "lambda-1" 100))
                (acquireDynamoLock (lock_env (demo_env_at 50)) held_until_100
                   "database.db" "lambda-7000000000").2) as [Hconflict _].
    + vm_compute. reflexivity.
    + apply Hconflict. discriminate.
Defined.

Lemma failed_execution_publishes_nothing_witness :
  (demo_Handler demo_env demo_world "INVALID SQL STATEMENT").1
  = createErrorResponse 500
      "SQL execution failed: query execution failed: near INVALID: syntax error"
  /\ bucket (demo_Handler demo_env demo_world "INVALID SQL STATEMENT").2
     = bucket demo_world
  /\ tmp (demo_Handler demo_env demo_world "INVALID SQL STATEMENT").2
       !! "/tmp/database.db" = None.
Proof.
  edestruct (failed_execution_publishes_nothing demo_Query demo_Exec
               demo_Unmarshal demo_env demo_world "INVALID SQL STATEMENT"
               (mkAPIRequest "INVALID SQL STATEMENT" ""))
    as (Hresp & Hb & _ & Ht).
  - reflexivity.
  - discriminate.
  - vm_compute. reflexivity.
  - vm_compute. reflexivity.
  - vm_compute. reflexivity.
  - split; [exact Hresp|]. split; [exact Hb | exact (Ht eq_refl)].
Defined.

(** * Further properties *)

(** ** The lease lock *)

(** X1.  Two invocations get the same instance id exactly when their
    readings of the clock are the same nanosecond. *)
Theorem newInstanceID_inj (t1 t2 : Time) :
  newInstanceID t1 = newInstanceID t2 <-> t1 = t2.
Proof.
  split; [|by intros ->]. unfold newInstanceID, UnixNano.
  cbv [String.append]. intros [= H]. by apply (inj pretty).
Qed.

Lemma acquire_success_locks (e : LockEnv) (w : World) (db id : string) :
  (acquireDynamoLock e w db id).1 = None ->
  locks (acquireDynamoLock e w db id).2
  = <[db := newLockItem db id (lease_now e)]> (locks w).
Proof.
  unfold acquireDynamoLock.
  assert (Hput : forall w0,
    (putNewLock (put_up e) (lease_now e) w0 db id).1 = None ->
    locks (putNewLock (put_up e) (lease_now e) w0 db id).2
    = <[db := newLockItem db id (lease_now e)]> (locks w0)).
  { intros w0. rewrite putNewLock_result, putNewLock_world, PutItem_result, PutItem_locks.
    cbn. destruct (put_up e); [|done]. by destruct (locks w0 !! db). }
  pose proof (GetItem_locks (get_up e) w db) as Hl.
  destruct (GetItem (get_up e) w db) as [[err|[x|]] w1] eqn:Hget; cbn in Hl; [done| |].
  - cbv zeta. destruct (LeaseTimeout x >? Unix (check_now e)); [done|].
    unfold releaseDynamoLock.
    pose proof (DeleteItem_locks (expire_up e) w1 db (InstanceID x)) as Hd.
    destruct (DeleteItem (expire_up e) w1 db (InstanceID x)) as [r w2]. cbn in Hd.
    intros Hok. rewrite (Hput w2 Hok), Hd, Hl.
    destruct (locks w !! db) as [y|]; [|done].
    destruct (expire_up e && String.eqb (InstanceID y) (InstanceID x)); [|done].
    apply insert_delete_eq.
  - intros Hok. by rewrite (Hput w1 Hok), Hl.
Qed.

Lemma DeleteItem_result (up : bool) (w : World) (key id : string) :
  (DeleteItem up w key id).1
  = if up then
      match locks w !! key with
      | Some it =>
          if String.eqb (InstanceID it) id then None
          else Some ConditionalCheckFailedException
      | None => Some ConditionalCheckFailedException
      end
    else Some RequestFailure.
Proof.
  unfold DeleteItem. cbn. destruct up; [|done].
  destruct (locks w !! key) as [it|]; [|done].
  by destruct (String.eqb (InstanceID it) id).
Qed.

(** X2.  After a successful [acquireDynamoLock], a served
    [releaseDynamoLock] with the same instance id succeeds and leaves the
    table without an item for the database: the table it started from when
    that had no item, and otherwise that table without the expired item. *)
Theorem acquire_release_round_trip (e : LockEnv) (w : World) (db id : string) :
  (acquireDynamoLock e w db id).1 = None ->
  (releaseDynamoLock true (acquireDynamoLock e w db id).2 db id).1 = None
  /\ locks (releaseDynamoLock true (acquireDynamoLock e w db id).2 db id).2
     = delete db (locks w)
  /\ (locks w !! db = None ->
      locks (releaseDynamoLock true (acquireDynamoLock e w db id).2 db id).2
      = locks w).
Proof.
  intros Hok. pose proof (acquire_success_locks e w db id Hok) as Hl.
  unfold releaseDynamoLock. rewrite DeleteItem_result, DeleteItem_locks.
  rewrite Hl, lookup_insert_eq, newLockItem_fields. cbn.
  rewrite String.eqb_refl, delete_insert_eq.
  split; [done|]. split; [done|].
  intros Hnone. by apply delete_id.
Qed.

(** The result and the table after [acquireDynamoLock], case by case. *)
Lemma acquire_outcome (e : LockEnv) (w : World) (db id : string) :
  ((acquireDynamoLock e w db id).1, locks (acquireDynamoLock e w db id).2)
  = if get_up e then
      match locks w !! db with
      | Some x =>
          if LeaseTimeout x >? Unix (check_now e) then
            (Some (Locked (InstanceID x) (LeaseTimeout x)), locks w)
          else if expire_up e then
            if put_up e then
              (None, <[db := newLockItem db id (lease_now e)]> (locks w))
            else (Some (PutFailed RequestFailure), delete db (locks w))
          else
            (Some (PutFailed (if put_up e then ConditionalCheckFailedException
                              else RequestFailure)), locks w)
      | None =>
          if put_up e then
            (None, <[db := newLockItem db id (lease_now e)]> (locks w))
          else (Some (PutFailed RequestFailure), locks w)
      end
    else (Some (CheckFailed RequestFailure), locks w).
Proof.
  unfold acquireDynamoLock, GetItem. cbn. destruct (get_up e); [|done]. cbn.
  destruct (locks w !! db) as [x|] eqn:Hx.
  - destruct (LeaseTimeout x >? Unix (check_now e)); [done|].
    unfold releaseDynamoLock.
    pose proof (DeleteItem_locks (expire_up e) (record_call w (CGetItem db)) db
                  (InstanceID x)) as Hd.
    destruct (DeleteItem _ _ _ _) as [r w2]. cbn in Hd.
    rewrite Hx, String.eqb_refl, andb_true_r in Hd.
    rewrite putNewLock_result, putNewLock_world, PutItem_result, PutItem_locks.
    cbn. rewrite Hd. destruct (expire_up e).
    + rewrite lookup_delete_eq. destruct (put_up e); [|done].
      cbn. by rewrite insert_delete_eq.
    + rewrite Hx. by destruct (put_up e).
  - rewrite putNewLock_result, putNewLock_world, PutItem_result, PutItem_locks.
    cbn. rewrite Hx. by destruct (put_up e).
Qed.

(** X3.  Whatever requests fail, [acquireDynamoLock] on an item whose lease
    has not expired returns an error and leaves the table as it is. *)
Theorem acquire_keeps_valid_lease (e : LockEnv) (w : World) (db id : string)
    (x : LockItem) :
  locks w !! db = Some x ->
  Unix (check_now e) < LeaseTimeout x ->
  (acquireDynamoLock e w db id).1
  = Some (if get_up e then Locked (InstanceID x) (LeaseTimeout x)
          else CheckFailed RequestFailure)
  /\ locks (acquireDynamoLock e w db id).2 = locks w.
Proof.
  intros Hx Hlt. pose proof (acquire_outcome e w db id) as H.
  rewrite Hx in H. destruct (get_up e).
  - destruct (Z.gtb_spec (LeaseTimeout x) (Unix (check_now e))); [|lia].
    by simplify_eq.
  - by simplify_eq.
Qed.

(** X4.  A run of [acquireDynamoLock] that returns an error has written no
    item: the table is as it was, or it has lost the expired item because
    the delete was served and the put was not. *)
Theorem failed_acquire_writes_nothing (e : LockEnv) (w : World) (db id : string) :
  (acquireDynamoLock e w db id).1 <> None ->
  locks (acquireDynamoLock e w db id).2 = locks w
  \/ (exists x, locks w !! db = Some x
        /\ LeaseTimeout x <= Unix (check_now e)
        /\ put_up e = false
        /\ locks (acquireDynamoLock e w db id).2 = delete db (locks w)).
Proof.
  intros Hfail. pose proof (acquire_outcome e w db id) as H.
  destruct (get_up e); [|left; by simplify_eq].
  destruct (locks w !! db) as [x|] eqn:Hx.
  - destruct (Z.gtb_spec (LeaseTimeout x) (Unix (check_now e)));
      [left; by simplify_eq|].
    destruct (expire_up e); [|left; by simplify_eq].
    destruct (put_up e); [by simplify_eq|].
    right. exists x. by simplify_eq.
  - destruct (put_up e); [by simplify_eq | left; by simplify_eq].
Qed.

(** X5.  When the removal of an expired item is not served, the failure is
    only logged, and the acquisition then fails at its put, which finds the
    expired item; the table is unchanged. *)
Theorem acquire_fails_when_expired_item_stays (e : LockEnv) (w : World)
    (db id : string) (x : LockItem) :
  get_up e = true -> expire_up e = false ->
  locks w !! db = Some x ->
  LeaseTimeout x <= Unix (check_now e) ->
  (acquireDynamoLock e w db id).1
  = Some (PutFailed (if put_up e then ConditionalCheckFailedException
                     else RequestFailure))
  /\ locks (acquireDynamoLock e w db id).2 = locks w.
Proof.
  intros Hget Hexp Hx Hle. pose proof (acquire_outcome e w db id) as H.
  rewrite Hget, Hx, Hexp in H.
  destruct (Z.gtb_spec (LeaseTimeout x) (Unix (check_now e))); [lia|].
  by simplify_eq.
Qed.

(** X6.  After a successful [releaseDynamoLock], a second one with the same
    arguments returns an error and changes nothing. *)
Theorem release_twice (up1 up2 : bool) (w : World) (db id : string) :
  (releaseDynamoLock up1 w db id).1 = None ->
  (releaseDynamoLock up2 (releaseDynamoLock up1 w db id).2 db id).1
  = Some (if up2 then ConditionalCheckFailedException else RequestFailure)
  /\ locks (releaseDynamoLock up2 (releaseDynamoLock up1 w db id).2 db id).2
     = locks (releaseDynamoLock up1 w db id).2.
Proof.
  unfold releaseDynamoLock. rewrite !DeleteItem_result, !DeleteItem_locks.
  destruct up1; [|done].
  destruct (locks w !! db) as [x|] eqn:Hx; [|done].
  cbn. destruct (String.eqb (InstanceID x) id); [|done].
  intros _. rewrite lookup_delete_eq. by destruct up2.
Qed.

(** X7.  An item acquired at second [s] makes every later acquisition whose
    check is before second [s + 300] fail with the holder and that expiry,
    for any instance id, the holder's own included; from second [s + 300]
    on a served acquisition takes the lease over. *)
Theorem lease_blocks_for_300_seconds (e1 e2 : LockEnv) (w : World)
    (db id1 id2 : string) :
  (acquireDynamoLock e1 w db id1).1 = None ->
  get_up e2 = true ->
  (Unix (check_now e2) < Unix (lease_now e1) + 300 ->
   (acquireDynamoLock e2 (acquireDynamoLock e1 w db id1).2 db id2).1
   = Some (Locked id1 (Unix (lease_now e1) + 300))
   /\ locks (acquireDynamoLock e2 (acquireDynamoLock e1 w db id1).2 db id2).2
      = locks (acquireDynamoLock e1 w db id1).2)
  /\ (Unix (lease_now e1) + 300 <= Unix (check_now e2) ->
      expire_up e2 = true -> put_up e2 = true ->
      (acquireDynamoLock e2 (acquireDynamoLock e1 w db id1).2 db id2).1 = None
      /\ locks (acquireDynamoLock e2 (acquireDynamoLock e1 w db id1).2 db id2).2
           !! db
         = Some (newLockItem db id2 (lease_now e2))).
Proof.
  intros Hok Hget.
  pose proof (acquire_stores_item e1 w db id1 Hok) as Hl.
  rewrite newLockItem_fields in Hl.
  pose proof (acquire_outcome e2 (acquireDynamoLock e1 w db id1).2 db id2) as H.
  rewrite Hget, Hl in H. cbn in H.
  split.
  - intros Hlt.
    destruct (Z.gtb_spec (Unix (lease_now e1) + 300) (Unix (check_now e2))); [|lia].
    by simplify_eq.
  - intros Hle Hexp Hput. rewrite Hexp, Hput in H.
    destruct (Z.gtb_spec (Unix (lease_now e1) + 300) (Unix (check_now e2))); [lia|].
    apply pair_equal_spec in H as [Hr Hw]. split; [done|].
    rewrite Hw. apply lookup_insert_eq.
Qed.

(** X8.  When a second instance has acquired after a first one, the release
    of the first one returns an error and the item of the second one stays. *)
Theorem late_release_leaves_new_holder (e1 e2 : LockEnv) (up : bool) (w : World)
    (db id1 id2 : string) :
  id1 <> id2 ->
  (acquireDynamoLock e1 w db id1).1 = None ->
  (acquireDynamoLock e2 (acquireDynamoLock e1 w db id1).2 db id2).1 = None ->
  (releaseDynamoLock up
     (acquireDynamoLock e2 (acquireDynamoLock e1 w db id1).2 db id2).2 db id1).1
  = Some (if up then ConditionalCheckFailedException else RequestFailure)
  /\ locks (releaseDynamoLock up
       (acquireDynamoLock e2 (acquireDynamoLock e1 w db id1).2 db id2).2 db id1).2
       !! db
     = Some (newLockItem db id2 (lease_now e2)).
Proof.
  intros Hne Hok1 Hok2.
  pose proof (acquire_success_locks e2 _ db id2 Hok2) as Hl.
  unfold releaseDynamoLock. rewrite DeleteItem_result, DeleteItem_locks.
  rewrite Hl, lookup_insert_eq, newLockItem_fields. cbn.
  destruct (String.eqb_spec id2 id1) as [Heq|_]; [by subst|].
  rewrite andb_false_r, lookup_insert_eq. by destruct up.
Qed.

(** *** Which requests a step issues *)

Lemma acquire_calls (e : LockEnv) (w : World) (db id : string) :
  exists l, calls (acquireDynamoLock e w db id).2 = calls w ++ l
    /\ Forall (fun c => is_dynamo_call c = true) l.
Proof.
  unfold acquireDynamoLock, GetItem, putNewLock, PutItem, releaseDynamoLock,
    DeleteItem.
  cbn. destruct (get_up e); cbn; [|by exists [CGetItem db]; auto].
  destruct (locks w !! db) as [x|]; cbn.
  - destruct (LeaseTimeout x >? Unix (check_now e)); cbn;
      [by exists [CGetItem db]; auto|].
    exists [CGetItem db; CDeleteItem db (InstanceID x);
            CPutItem (newLockItem db id (lease_now e))].
    split; [|by repeat constructor].
    repeat (first [ progress cbn | case_match ]); simplify_eq;
      unfold record_call, set_locks, set_tmp; cbn; by rewrite <- ?app_assoc.
  - exists [CGetItem db; CPutItem (newLockItem db id (lease_now e))].
    split; [|by repeat constructor].
    repeat (first [ progress cbn | case_match ]); simplify_eq;
      unfold record_call, set_locks, set_tmp; cbn; by rewrite <- ?app_assoc.
Qed.

Lemma download_calls (e : Env) (w : World) (db : string) :
  exists l, calls (downloadFromS3 e w db).2 = calls w ++ l
    /\ Forall (fun c => is_dynamo_call c = false) l.
Proof.
  unfold downloadFromS3, GetObject, os_Create. cbn.
  destruct (s3get_up e); cbn; [|by exists [CGetObject db]; auto].
  destruct (bucket w !! db) as [content|]; cbn; [|by exists [CGetObject db]; auto].
  exists [CGetObject db; CCreate ("/tmp/" +:+ db)].
  split; [|by repeat constructor].
  repeat (first [ progress cbn | case_match ]); simplify_eq;
    unfold record_call, set_locks, set_tmp; cbn; by rewrite <- ?app_assoc.
Qed.

Lemma upload_calls (e : Env) (w : World) (path db : string) :
  exists l, calls (uploadToS3 e w path db).2 = calls w ++ l
    /\ Forall (fun c => is_dynamo_call c = false) l.
Proof.
  unfold uploadToS3, PutObject.
  destruct (open_err e); [by exists []; rewrite app_nil_r|].
  destruct (tmp w !! path) as [file|]; [|by exists []; rewrite app_nil_r].
  exists [CPutObject db file]. split; [|by repeat constructor].
  cbn. by destruct (s3put_up e).
Qed.

Lemma remove_calls (ok : bool) (w : World) (path : string) :
  calls (os_Remove ok w path) = calls w ++ [CRemove path].
Proof. unfold os_Remove. by destruct ok. Qed.

Lemma download_success (e : Env) (w w' : World) (db path : string) :
  downloadFromS3 e w db = (inr path, w') ->
  path = "/tmp/" +:+ db
  /\ s3get_up e = true /\ create_err e = None /\ copy_err e = None
  /\ exists content,
       bucket w !! db = Some content
       /\ tmp w' = <[path := content]> (tmp w)
       /\ bucket w' = bucket w /\ locks w' = locks w.
Proof.
  unfold downloadFromS3, GetObject, os_Create. cbn.
  destruct (s3get_up e); [|done]. cbn.
  destruct (bucket w !! db) as [content|] eqn:Hc; [|done]. cbn.
  destruct (create_err e); [done|].
  destruct (copy_err e) as [[n err]|]; [done|].
  intros [= <- <-]. repeat split. exists content. cbn.
  by rewrite insert_insert_eq.
Qed.

(** X9.  [downloadFromS3] succeeds exactly when the request is served, the
    object exists, and the local file is created and written; the path is
    [/tmp/] followed by the name, the file holds the object, and the bucket
    is never changed. *)
Theorem download_succeeds_iff (e : Env) (w : World) (db : string) :
  ((exists path, (downloadFromS3 e w db).1 = inr path)
   <-> s3get_up e = true /\ is_Some (bucket w !! db)
       /\ create_err e = None /\ copy_err e = None)
  /\ (forall path, (downloadFromS3 e w db).1 = inr path ->
      path = "/tmp/" +:+ db
      /\ tmp (downloadFromS3 e w db).2 !! path = bucket w !! db)
  /\ bucket (downloadFromS3 e w db).2 = bucket w.
Proof.
  split; [split|split].
  - intros [path Hp].
    destruct (downloadFromS3 e w db) as [r w'] eqn:Hd. cbn in Hp. subst r.
    destruct (download_success e w w' db path Hd)
      as (_ & ? & ? & ? & content & Hc & _).
    rewrite Hc. by eauto.
  - intros (Hup & [content Hc] & Hcr & Hcp). exists ("/tmp/" +:+ db).
    unfold downloadFromS3, GetObject, os_Create. cbn.
    by rewrite Hup, Hc, Hcr, Hcp.
  - intros path Hp.
    destruct (downloadFromS3 e w db) as [r w'] eqn:Hd. cbn in Hp. subst r.
    destruct (download_success e w w' db path Hd)
      as (-> & _ & _ & _ & content & Hc & Ht & _).
    split; [done|]. cbn. by rewrite Ht, lookup_insert_eq, Hc.
  - by destruct (download_frame e w db) as (_ & ? & _).
Qed.

(** X10.  [uploadToS3] succeeds exactly when the local file opens and the
    request is served; the object is then the content of the file and the
    other objects are untouched.  When it fails the bucket is unchanged,
    and when the file does not open no request is issued. *)
Theorem upload_succeeds_iff (e : Env) (w : World) (path db : string) :
  ((uploadToS3 e w path db).1 = None
   <-> open_err e = None /\ is_Some (tmp w !! path) /\ s3put_up e = true)
  /\ ((uploadToS3 e w path db).1 = None ->
      bucket (uploadToS3 e w path db).2 !! db = tmp w !! path
      /\ forall key, key <> db ->
           bucket (uploadToS3 e w path db).2 !! key = bucket w !! key)
  /\ ((uploadToS3 e w path db).1 <> None ->
      bucket (uploadToS3 e w path db).2 = bucket w)
  /\ (open_err e <> None \/ tmp w !! path = None ->
      (uploadToS3 e w path db).2 = w).
Proof.
  unfold uploadToS3, PutObject.
  destruct (open_err e) as [err|] eqn:Ho.
  { split; [split|split; [|split]]; try done. by intros (? & _). }
  destruct (tmp w !! path) as [file|] eqn:Hf.
  2:{ split; [split|split; [|split]]; try done. by intros (_ & [? ?] & _). }
  cbn. destruct (s3put_up e); cbn.
  - split; [split|split; [|split]]; try done.
    + intros _. split; [apply lookup_insert_eq|].
      intros key Hk. by apply lookup_insert_ne.
    + by intros [? | ?].
  - split; [split|split; [|split]]; try done.
    + by intros (_ & _ & ?).
    + by intros [? | ?].
Qed.

Lemma download_other_paths (e : Env) (w : World) (db path : string) :
  path <> "/tmp/" +:+ db ->
  tmp (downloadFromS3 e w db).2 !! path = tmp w !! path.
Proof.
  intros Hp. unfold downloadFromS3, GetObject, os_Create. cbn.
  destruct (s3get_up e); [|done]. cbn.
  destruct (bucket w !! db) as [content|]; [|done]. cbn.
  destruct (create_err e); [done|].
  destruct (copy_err e) as [[n err]|]; cbn; by rewrite !lookup_insert_ne.
Qed.


Lemma upload_success (e : Env) (w w' : World) (path db : string) :
  uploadToS3 e w path db = (None, w') ->
  exists file, tmp w !! path = Some file
    /\ bucket w' = <[db := file]> (bucket w).
Proof.
  unfold uploadToS3, PutObject.
  destruct (open_err e); [done|].
  destruct (tmp w !! path) as [file|]; [|done].
  cbn. destruct (s3put_up e); [|done]. intros [= <-]. by exists file.
Qed.

Section HandlerMore.

Context {value : Type}.
Variable sqlite_Query : blob -> string -> QueryOutcome value * blob.
Variable sqlite_Exec : blob -> string -> ExecOutcome * blob.
Variable json_Unmarshal : string -> option APIRequest.

Local Abbreviation executeSQL := (executeSQL sqlite_Query sqlite_Exec).
Local Abbreviation Handler_fetched := (Handler_fetched sqlite_Query sqlite_Exec).
Local Abbreviation Handler_locked := (Handler_locked sqlite_Query sqlite_Exec).
Local Abbreviation Handler := (Handler sqlite_Query sqlite_Exec json_Unmarshal).

(** The content of the database file after the statement. *)
Local Abbreviation engine_file := (fun (file : blob) (stmt : string) =>
  if isSelect stmt then (sqlite_Query file stmt).2
  else (sqlite_Exec file stmt).2).

Lemma executeSQL_world (w : World) (path stmt : string) :
  (executeSQL w path stmt).2
  = set_tmp w (<[path := engine_file (default [] (tmp w !! path)) stmt]> (tmp w)).
Proof.
  unfold executeSQL. destruct (isSelect stmt).
  - destruct (sqlite_Query _ _) as [[err|err|err|columns rows] file]; try done.
    cbn. by destruct (scanRows columns rows []).
  - by destruct (sqlite_Exec _ _) as [[err|err|n] file].
Qed.

Lemma executeSQL_success_flag (w w' : World) (path stmt : string)
    (result : SQLResult value) :
  executeSQL w path stmt = (inr result, w') ->
  Success result = true /\ Error result = "".
Proof.
  unfold executeSQL. destruct (isSelect stmt).
  - destruct (sqlite_Query _ _) as [[err|err|err|columns rows] file]; try done.
    destruct (scanRows columns rows []); [done|]. by intros [= <- <-].
  - destruct (sqlite_Exec _ _) as [[err|err|n] file]; try done.
    by intros [= <- <-].
Qed.

Lemma Handler_locked_cases (e : Env) (w : World) (db stmt id : string) :
  match (downloadFromS3 e w db).1 with
  | inl err =>
      Handler_locked e w db stmt id
      = (createErrorResponse 500 ("Failed to download database: " +:+ err),
         (releaseDynamoLock (release_up e) (downloadFromS3 e w db).2 db id).2)
  | inr path =>
      match (executeSQL (downloadFromS3 e w db).2 path stmt).1 with
      | inl err =>
          Handler_locked e w db stmt id
          = (createErrorResponse 500 ("SQL execution failed: " +:+ err),
             (releaseDynamoLock (release_up e)
                (os_Remove (remove_ok e)
                   (executeSQL (downloadFromS3 e w db).2 path stmt).2 path)
                db id).2)
      | inr result =>
          Handler_locked e w db stmt id
          = (match (uploadToS3 e
                      (executeSQL (downloadFromS3 e w db).2 path stmt).2
                      path db).1 with
             | Some err =>
                 createErrorResponse 500 ("Failed to upload database: " +:+ err)
             | None => createSuccessResponse result
             end,
             (releaseDynamoLock (release_up e)
                (os_Remove (remove_ok e)
                   (uploadToS3 e
                      (executeSQL (downloadFromS3 e w db).2 path stmt).2
                      path db).2 path)
                db id).2)
      end
  end.
Proof.
  unfold Handler_locked, Handler_fetched.
  destruct (downloadFromS3 e w db) as [[err|path] w1]; [done|]. cbn [fst snd].
  destruct (executeSQL w1 path stmt) as [[err|result] w2]; [done|]. cbn [fst snd].
  by destruct (uploadToS3 e w2 path db) as [[err|] w3].
Qed.

Lemma Handler_cases (e : Env) (w : World) (body : string) :
  match json_Unmarshal body with
  | None =>
      Handler e w body
      = (createErrorResponse 400 "Invalid JSON in request body", w)
  | Some apiReq =>
      if String.eqb (SQLStatement apiReq) "" then
        Handler e w body
        = (createErrorResponse 400 "SQL statement is required", w)
      else
        match (acquireDynamoLock (lock_env e) w (requestDatabaseName apiReq)
                 (newInstanceID (instance_now e))).1 with
        | Some err =>
            Handler e w body
            = (createErrorResponse 409
                 ("Failed to acquire lock: " +:+ AcquireError_Error err),
               (acquireDynamoLock (lock_env e) w (requestDatabaseName apiReq)
                  (newInstanceID (instance_now e))).2)
        | None =>
            Handler e w body
            = Handler_locked e
                (acquireDynamoLock (lock_env e) w (requestDatabaseName apiReq)
                   (newInstanceID (instance_now e))).2
                (requestDatabaseName apiReq) (SQLStatement apiReq)
                (newInstanceID (instance_now e))
        end
  end.
Proof.
  unfold Handler. destruct (json_Unmarshal body) as [apiReq|]; [|done].
  cbv zeta. destruct (String.eqb (SQLStatement apiReq) ""); [done|].
  by destruct (acquireDynamoLock _ _ _ _) as [[err|] w1].
Qed.

Lemma Handler_locked_status (e : Env) (w : World) (db stmt id : string) :
  StatusCode (Handler_locked e w db stmt id).1 = 500
  \/ StatusCode (Handler_locked e w db stmt id).1 = 200.
Proof.
  pose proof (Handler_locked_cases e w db stmt id) as H.
  destruct (downloadFromS3 e w db).1 as [err|path]; [left; by rewrite H|].
  destruct (executeSQL _ path stmt).1 as [err|result]; [left; by rewrite H|].
  rewrite H. cbn. destruct (uploadToS3 _ _ _ _).1; [by left | by right].
Qed.

(** X11.  The handler answers 400 exactly when the body does not parse or
    the statement is empty, and it then issues no request and changes
    nothing. *)
Theorem Handler_rejects_without_effect (e : Env) (w : World) (body : string) :
  (StatusCode (Handler e w body).1 = 400
   <-> json_Unmarshal body = None
       \/ exists apiReq, json_Unmarshal body = Some apiReq
            /\ SQLStatement apiReq = "")
  /\ (StatusCode (Handler e w body).1 = 400 -> (Handler e w body).2 = w).
Proof.
  pose proof (Handler_cases e w body) as H.
  destruct (json_Unmarshal body) as [apiReq|].
  - destruct (String.eqb_spec (SQLStatement apiReq) "") as [Hs|Hs].
    + rewrite H. split; [|done]. split; [|done]. intros _. right. by exists apiReq.
    + assert (Hne : StatusCode (Handler e w body).1 <> 400).
      { destruct (acquireDynamoLock _ _ _ _).1; rewrite H; [done|].
        by destruct (Handler_locked_status e
                       (acquireDynamoLock (lock_env e) w
                          (requestDatabaseName apiReq)
                          (newInstanceID (instance_now e))).2
                       (requestDatabaseName apiReq) (SQLStatement apiReq)
                       (newInstanceID (instance_now e))) as [-> | ->]. }
      split; [|done]. split; [done|].
      intros [? | (r & [= <-] & ?)]; done.
  - rewrite H. split; [|done]. split; [|done]. intros _. by left.
Qed.

(** X12.  When [acquireDynamoLock] returns an error the handler answers 409
    with that error and does nothing else: it issues requests to the lock
    table only, and the bucket and the local files are as they were. *)
Theorem Handler_without_lock_stops (e : Env) (w : World) (body : string)
    (apiReq : APIRequest) (err : AcquireError) :
  json_Unmarshal body = Some apiReq ->
  SQLStatement apiReq <> "" ->
  (acquireDynamoLock (lock_env e) w (requestDatabaseName apiReq)
     (newInstanceID (instance_now e))).1 = Some err ->
  Handler e w body
  = (createErrorResponse 409
       ("Failed to acquire lock: " +:+ AcquireError_Error err),
     (acquireDynamoLock (lock_env e) w (requestDatabaseName apiReq)
        (newInstanceID (instance_now e))).2)
  /\ bucket (Handler e w body).2 = bucket w
  /\ tmp (Handler e w body).2 = tmp w
  /\ exists l, calls (Handler e w body).2 = calls w ++ l
       /\ Forall (fun c => is_dynamo_call c = true) l.
Proof.
  intros Hparse Hstmt Hacq. pose proof (Handler_cases e w body) as H.
  rewrite Hparse, Hacq in H.
  destruct (String.eqb_spec (SQLStatement apiReq) ""); [done|].
  rewrite H. cbn [fst snd]. split; [done|].
  destruct (acquire_frame (lock_env e) w (requestDatabaseName apiReq)
              (newInstanceID (instance_now e))) as (Hb & Ht & _).
  split; [done|]. split; [done|]. apply acquire_calls.
Qed.

(** X13.  After a successful acquisition, the requests of the handler are
    requests to S3 and to the local file system followed by the release:
    no other request to the lock table is issued. *)
Theorem Handler_snapshot_requests_under_lock (e : Env) (w : World)
    (body : string) (apiReq : APIRequest) :
  json_Unmarshal body = Some apiReq ->
  SQLStatement apiReq <> "" ->
  (acquireDynamoLock (lock_env e) w (requestDatabaseName apiReq)
     (newInstanceID (instance_now e))).1 = None ->
  exists mid,
    calls (Handler e w body).2
    = calls (acquireDynamoLock (lock_env e) w (requestDatabaseName apiReq)
               (newInstanceID (instance_now e))).2
      ++ mid
      ++ [CDeleteItem (requestDatabaseName apiReq)
            (newInstanceID (instance_now e))]
    /\ Forall (fun c => is_dynamo_call c = false) mid.
Proof.
  intros Hparse Hstmt Hacq. pose proof (Handler_cases e w body) as H.
  rewrite Hparse, Hacq in H.
  destruct (String.eqb_spec (SQLStatement apiReq) ""); [done|].
  rewrite H. clear H.
  set (w1 := (acquireDynamoLock _ _ _ _).2).
  set (db := requestDatabaseName apiReq). set (id := newInstanceID _).
  pose proof (Handler_locked_cases e w1 db (SQLStatement apiReq) id) as H.
  destruct (download_calls e w1 db) as (l1 & Hc1 & Hf1).
  destruct (downloadFromS3 e w1 db).1 as [err|path].
  { rewrite H. cbn [snd].
    destruct (release_frame (release_up e) (downloadFromS3 e w1 db).2 db id)
      as (_ & _ & _ & ->).
    exists l1. by rewrite Hc1, <- app_assoc. }
  pose proof (executeSQL_world (downloadFromS3 e w1 db).2 path
                (SQLStatement apiReq)) as Hx.
  destruct (executeSQL _ path (SQLStatement apiReq)) as [[err|result] w3];
    cbn [fst snd] in *.
  { rewrite H. cbn [snd].
    destruct (release_frame (release_up e) (os_Remove (remove_ok e) w3 path) db id)
      as (_ & _ & _ & ->).
    rewrite remove_calls, Hx. cbn. rewrite Hc1.
    exists (l1 ++ [CRemove path]). rewrite <- !app_assoc. split; [done|].
    apply Forall_app. split; [done | by repeat constructor]. }
  rewrite H. cbn [snd].
  destruct (upload_calls e w3 path db) as (l3 & Hc3 & Hf3).
  destruct (release_frame (release_up e)
              (os_Remove (remove_ok e) (uploadToS3 e w3 path db).2 path) db id)
    as (_ & _ & _ & ->).
  rewrite remove_calls, Hc3, Hx. cbn. rewrite Hc1.
  exists (l1 ++ l3 ++ [CRemove path]). rewrite <- !app_assoc. split; [done|].
  repeat (apply Forall_app; split); [done | done | by repeat constructor].
Qed.

(** X14.  When the lock was acquired and the release is served, the lock
    table after the invocation is the table before it without the item of
    the database. *)
Theorem Handler_lock_table_after (e : Env) (w : World) (body : string)
    (apiReq : APIRequest) :
  json_Unmarshal body = Some apiReq ->
  SQLStatement apiReq <> "" ->
  (acquireDynamoLock (lock_env e) w (requestDatabaseName apiReq)
     (newInstanceID (instance_now e))).1 = None ->
  release_up e = true ->
  locks (Handler e w body).2 = delete (requestDatabaseName apiReq) (locks w).
Proof.
  intros Hparse Hstmt Hacq Hup. pose proof (Handler_cases e w body) as H.
  rewrite Hparse, Hacq in H.
  destruct (String.eqb_spec (SQLStatement apiReq) ""); [done|].
  rewrite H. clear H.
  pose proof (acquire_success_locks _ _ _ _ Hacq) as Hl.
  destruct (Handler_locked_release sqlite_Query sqlite_Exec e
              (acquireDynamoLock (lock_env e) w (requestDatabaseName apiReq)
                 (newInstanceID (instance_now e))).2
              (requestDatabaseName apiReq) (SQLStatement apiReq)
              (newInstanceID (instance_now e))) as (w2 & Hw2 & ->).
  unfold releaseDynamoLock.
  rewrite DeleteItem_locks, Hw2, Hl, lookup_insert_eq, Hup, newLockItem_fields.
  cbn. rewrite String.eqb_refl. apply delete_insert_eq.
Qed.




(** X16.  When the handler answers 200 for a database with a plain name,
    the object existed, and the bucket afterwards holds for the database
    the file the engine left after the statement; if the engine left the
    file as it was, the bucket is as it was. *)
Theorem Handler_success_publishes (e : Env) (w : World) (body : string)
    (apiReq : APIRequest) :
  json_Unmarshal body = Some apiReq ->
  plain_name (requestDatabaseName apiReq) = true ->
  StatusCode (Handler e w body).1 = 200 ->
  exists content,
    bucket w !! requestDatabaseName apiReq = Some content
    /\ bucket (Handler e w body).2
       = <[requestDatabaseName apiReq
           := engine_file content (SQLStatement apiReq)]> (bucket w)
    /\ (engine_file content (SQLStatement apiReq) = content ->
        bucket (Handler e w body).2 = bucket w).
Proof.
  intros Hparse _ H200. pose proof (Handler_cases e w body) as H.
  rewrite Hparse in H.
  destruct (String.eqb (SQLStatement apiReq) ""); [by rewrite H in H200|].
  set (db := requestDatabaseName apiReq) in *.
  set (id := newInstanceID (instance_now e)) in *.
  destruct (acquire_frame (lock_env e) w db id) as (Hb0 & _).
  destruct (acquireDynamoLock (lock_env e) w db id) as [[err|] w1];
    cbn [fst snd] in *; [by rewrite H in H200|].
  rewrite H in *. clear H.
  pose proof (Handler_locked_cases e w1 db (SQLStatement apiReq) id) as H.
  destruct (downloadFromS3 e w1 db) as [[err|path] w2] eqn:Hd;
    cbn [fst snd] in *; [by rewrite H in H200|].
  destruct (download_success e w1 w2 db path Hd)
    as (-> & _ & _ & _ & content & Hc & Ht2 & Hb2 & _).
  set (path := "/tmp/" +:+ db) in *.
  pose proof (executeSQL_world w2 path (SQLStatement apiReq)) as Hx.
  destruct (executeSQL w2 path (SQLStatement apiReq)) as [[err|result] w3];
    cbn [fst snd] in *; [by rewrite H in H200|].
  destruct (uploadToS3 e w3 path db) as [[err|] w4] eqn:Hu;
    cbn [fst snd] in *; [by rewrite H in H200|].
  destruct (upload_success e w3 w4 path db Hu) as (file & Hf & Hb4).
  rewrite Hx in Hf, Hb4. cbn in Hf, Hb4.
  rewrite lookup_insert_eq in Hf. rewrite Ht2, lookup_insert_eq in Hf.
  cbn in Hf. simplify_eq.
  exists content. rewrite <- Hb0. split; [done|].
  assert (Hfin : bucket (Handler_locked e w1 db (SQLStatement apiReq) id).2
                 = <[db := engine_file content (SQLStatement apiReq)]> (bucket w1)).
  { rewrite H. cbn [snd].
    destruct (release_frame (release_up e) (os_Remove (remove_ok e) w4 path) db id)
      as (-> & _).
    destruct (remove_frame (remove_ok e) w4 path) as (_ & -> & _).
    by rewrite Hb4, Hb2. }
  split; [done|]. intros Hsame. rewrite Hfin, Hsame. by apply insert_id.
Qed.

(** X17.  When the upload fails after the statement has run, the handler
    answers 500 with the error of the upload, the bucket is as it was, the
    local copy is removed when [os.Remove] succeeds and the lock is
    released when the release is served. *)
Theorem failed_publish_keeps_bucket (e : Env) (w : World) (body : string)
    (apiReq : APIRequest) (w1 w2 w3 : World) (path err : string)
    (result : SQLResult value) :
  json_Unmarshal body = Some apiReq ->
  SQLStatement apiReq <> "" ->
  acquireDynamoLock (lock_env e) w (requestDatabaseName apiReq)
    (newInstanceID (instance_now e)) = (None, w1) ->
  downloadFromS3 e w1 (requestDatabaseName apiReq) = (inr path, w2) ->
  executeSQL w2 path (SQLStatement apiReq) = (inr result, w3) ->
  (uploadToS3 e w3 path (requestDatabaseName apiReq)).1 = Some err ->
  (Handler e w body).1
  = createErrorResponse 500 ("Failed to upload database: " +:+ err)
  /\ bucket (Handler e w body).2 = bucket w
  /\ (remove_ok e = true -> tmp (Handler e w body).2 !! path = None)
  /\ (release_up e = true ->
      locks (Handler e w body).2 !! requestDatabaseName apiReq = None).
Proof.
  intros Hparse Hstmt Hacq Hdl Hex Hup.
  pose proof (Handler_releases_last sqlite_Query sqlite_Exec json_Unmarshal
                e w body apiReq w1 Hparse Hstmt Hacq) as [_ Hrel].
  rewrite (Handler_acquired sqlite_Query sqlite_Exec json_Unmarshal
             e w body apiReq w1 Hparse Hstmt Hacq) in *.
  pose proof (Handler_locked_cases e w1 (requestDatabaseName apiReq)
                (SQLStatement apiReq) (newInstanceID (instance_now e))) as H.
  rewrite Hdl in H. cbn [fst snd] in H. rewrite Hex in H. cbn [fst snd] in H.
  rewrite Hup in H. rewrite H in *. cbn [fst snd] in *.
  destruct (acquire_frame (lock_env e) w (requestDatabaseName apiReq)
              (newInstanceID (instance_now e))) as (Hb1 & _).
  rewrite Hacq in Hb1. cbn in Hb1.
  destruct (download_frame e w1 (requestDatabaseName apiReq)) as (_ & Hb2 & _).
  rewrite Hdl in Hb2. cbn in Hb2.
  destruct (executeSQL_frame sqlite_Query sqlite_Exec w2 path
              (SQLStatement apiReq)) as (_ & Hb3 & _).
  rewrite Hex in Hb3. cbn in Hb3.
  destruct (upload_frame e w3 path (requestDatabaseName apiReq)) as (_ & Hb4).
  destruct (remove_frame (remove_ok e)
              (uploadToS3 e w3 path (requestDatabaseName apiReq)).2 path)
    as (_ & Hb5 & _ & Ht5).
  destruct (release_frame (release_up e)
              (os_Remove (remove_ok e)
                 (uploadToS3 e w3 path (requestDatabaseName apiReq)).2 path)
              (requestDatabaseName apiReq) (newInstanceID (instance_now e)))
    as (Hb6 & Ht6 & _).
  split; [done|]. split.
  - rewrite Hb6, Hb5, Hb4 by (by rewrite Hup). congruence.
  - split; [|done]. intros Hok. rewrite Ht6. by apply Ht5.
Qed.


End HandlerMore.

(** ** Rows *)

Section Rows.

Context {value : Type}.

Lemma scanRows_acc (columns : list string) (rows : list (string + list value))
    (acc : list (gmap string value)) :
  match scanRows columns rows acc with
  | inl e =>
      exists vals err rest,
        rows = (inr <$> vals) ++ inl err :: rest
        /\ e = "failed to scan row: " +:+ err
  | inr results =>
      exists vals, rows = inr <$> vals
        /\ results = acc ++ (makeRow columns <$> vals)
  end.
Proof.
  revert acc. induction rows as [|[err|values] rows IH]; intros acc; cbn.
  - exists []. by rewrite app_nil_r.
  - by exists [], err, rows.
  - specialize (IH (acc ++ [makeRow columns values])).
    destruct (scanRows columns rows _) as [e|results].
    + destruct IH as (vals & err & rest & -> & ->).
      by exists (values :: vals), err, rest.
    + destruct IH as (vals & -> & ->).
      exists (values :: vals). by rewrite <- app_assoc.
Qed.

(** X21.  The loop over the rows gives all rows, in order, when every row
    scans, and otherwise the error of the first row that does not scan. *)
Theorem scanRows_all_or_first_error (columns : list string)
    (rows : list (string + list value)) :
  (forall results,
     scanRows columns rows [] = inr results
     <-> exists vals, rows = inr <$> vals /\ results = makeRow columns <$> vals)
  /\ (forall e,
      scanRows columns rows [] = inl e
      <-> exists vals err rest,
            rows = (inr <$> vals) ++ inl err :: rest
            /\ e = "failed to scan row: " +:+ err).
Proof.
  pose proof (scanRows_acc columns rows []) as H.
  assert (Hexcl : forall vals vals' err rest,
    (inr <$> vals : list (string + list value))
    <> (inr <$> vals') ++ inl err :: rest).
  { intros vals vals'. revert vals.
    induction vals' as [|v' vals' IH]; intros [|v vals] err rest; cbn; try done.
    intros [= _ Heq]. by eapply IH. }
  assert (Hdet : forall vals vals' err err' rest rest',
    (inr <$> vals) ++ inl err :: rest
    = (inr <$> vals' : list (string + list value)) ++ inl err' :: rest' ->
    err = err').
  { induction vals as [|v vals IH]; intros [|v' vals'] err err' rest rest'; cbn;
      try done; [by intros [= ->] | intros [= _ Heq]; by eapply IH]. }
  split.
  - intros results. split.
    + intros Heq. rewrite Heq in H. by destruct H as (vals & -> & ->); eauto.
    + intros (vals & -> & ->).
      destruct (scanRows columns (inr <$> vals) []) as [e|results].
      * destruct H as (vals' & err & rest & Hrows & _).
        by destruct (Hexcl _ _ _ _ Hrows).
      * destruct H as (vals' & Hrows & ->).
        apply (inj (fmap inr)) in Hrows. by subst.
  - intros e. split.
    + intros Heq. by rewrite Heq in H.
    + intros (vals & err & rest & -> & ->).
      destruct (scanRows columns _ []) as [e|results].
      * destruct H as (vals' & err' & rest' & Hrows & ->).
        by rewrite (Hdet _ _ _ _ _ _ Hrows).
      * destruct H as (vals' & Hrows & _). symmetry in Hrows.
        by destruct (Hexcl _ _ _ _ Hrows).
Qed.

Lemma foldl_insert_lookup (l : list (string * value)) (m : gmap string value)
    (c : string) :
  foldl (fun row cv => <[cv.1 := cv.2]> row) m l !! c
  = match last (filter (fun cv => cv.1 = c) l) with
    | Some cv => Some cv.2
    | None => m !! c
    end.
Proof.
  revert m. induction l as [|[c' v'] l IH]; intros m; [done|].
  cbn [foldl]. rewrite IH, filter_cons. cbn.
  destruct (decide (c' = c)) as [->|Hne].
  - rewrite last_cons, lookup_insert_eq.
    by destruct (last (filter (fun cv => cv.1 = c) l)).
  - rewrite lookup_insert_ne by done. done.
Qed.

(** X22.  The value of a row under a column name is the value of the last
    column of that name. *)
Theorem makeRow_last_column_wins (columns : list string) (values : list value)
    (c : string) :
  makeRow columns values !! c
  = snd <$> last (filter (fun cv => cv.1 = c) (zip columns values)).
Proof.
  unfold makeRow. rewrite foldl_insert_lookup, lookup_empty.
  by destruct (last _).
Qed.

Lemma foldl_insert_notin (l : list (string * value)) (m : gmap string value)
    (c : string) :
  c ∉ l.*1 -> foldl (fun row cv => <[cv.1 := cv.2]> row) m l !! c = m !! c.
Proof.
  revert m. induction l as [|[c' v'] l IH]; intros m Hc; [done|].
  cbn in *. apply not_elem_of_cons in Hc as [Hne Hc].
  rewrite IH by done. by rewrite lookup_insert_ne.
Qed.

Lemma foldl_insert_NoDup (l : list (string * value)) (m : gmap string value)
    (c : string) (v : value) :
  NoDup l.*1 -> (c, v) ∈ l ->
  foldl (fun row cv => <[cv.1 := cv.2]> row) m l !! c = Some v.
Proof.
  revert m. induction l as [|[c' v'] l IH]; intros m Hnd Hin;
    [by apply elem_of_nil in Hin|].
  cbn in *. apply NoDup_cons in Hnd as [Hnotin Hnd].
  apply elem_of_cons in Hin as [[= -> ->] | Hin].
  - rewrite foldl_insert_notin by done. apply lookup_insert_eq.
  - by apply IH.
Qed.

Lemma NoDup_zip_fst (columns : list string) (values : list value) :
  NoDup columns -> NoDup (zip columns values).*1.
Proof.
  revert values. induction columns as [|c columns IH]; intros values Hnd;
    [constructor|].
  apply NoDup_cons in Hnd as [Hnotin Hnd].
  destruct values as [|v values]; [constructor|].
  cbn. apply NoDup_cons. split; [|by apply IH].
  intros Hin. apply Hnotin. apply list_elem_of_fmap in Hin as ([c' v'] & -> & Hin).
  by apply elem_of_zip_l in Hin.
Qed.

(** X23.  When the column names are distinct, a row maps each column name
    to the value at the position of the column. *)
Theorem makeRow_lookup_column (columns : list string) (values : list value)
    (i : nat) (c : string) (v : value) :
  NoDup columns ->
  columns !! i = Some c -> values !! i = Some v ->
  makeRow columns values !! c = Some v.
Proof.
  intros Hnd Hc Hv. unfold makeRow.
  apply foldl_insert_NoDup; [by apply NoDup_zip_fst|].
  apply list_elem_of_lookup. exists i.
  apply lookup_zip_with_Some. by exists c, v.
Qed.

End Rows.

(** *** Whose item the table holds *)

Lemma item_of_winner_step (db : string) (t0 : Z) (w w' : World)
    (ws : list Worker) (i : nat) (k k' : Worker) :
  item_of_winner db t0 (w, ws) ->
  ws !! i = Some k -> ~ acquired k ->
  (locks w' !! db = locks w !! db \/ locks w' !! db = None) ->
  item_of_winner db t0 (w', <[i := k']> ws).
Proof.
  intros Hinv Hi Hk Hsame x Hx Hlease. cbn [fst snd] in *.
  destruct Hsame as [Hsame | Hnone]; [|by rewrite Hnone in Hx].
  rewrite Hsame in Hx.
  destruct (Hinv x Hx Hlease) as (i0 & k0 & Hi0 & Hk0 & Hid).
  cbn [fst snd] in Hi0. exists i0, k0. split; [|done].
  rewrite list_lookup_insert_ne; [done|]. intros ->. simplify_eq. by apply Hk.
Qed.

Lemma worker_step_db (up : bool) (now : Time) (w : World) (k : Worker) :
  w_db (worker_step up now w k).1 = w_db k.
Proof.
  unfold worker_step. destruct (w_pc k); [| | |done].
  - destruct (GetItem up w (w_db k)) as [[err|[x|]] w']; [done | | done].
    by destruct (LeaseTimeout x >? Unix now).
  - by destruct (releaseDynamoLock up w (w_db k) holder).
  - by destruct (putNewLock up now w (w_db k) (w_id k)).
Qed.

Lemma item_of_winner_tick (db : string) (t0 : Z) (tk : Tick)
    (s : World * list Worker) :
  (forall j k, s.2 !! j = Some k -> w_db k = db) ->
  item_of_winner db t0 s -> item_of_winner db t0 (tick tk s).
Proof.
  intros Hdb Hinv. destruct s as [w ws]. cbn [fst snd] in *.
  destruct tk as [i up now | key now].
  - destruct (ws !! i) as [k|] eqn:Hk; [| by (unfold tick; cbn; rewrite Hk)].
    rewrite (tick_Run i up now w ws k Hk).
    pose proof (Hdb i k Hk) as Hkdb.
    destruct (w_pc k) as [|h| |r] eqn:Hpc.
    + destruct (worker_step_get up now w k Hpc) as [Hl ->].
      eapply item_of_winner_step; [done | done | | left; by rewrite Hl].
      unfold acquired. by rewrite Hpc.
    + destruct (worker_step_expire up now w k h Hpc) as [Hl ->].
      eapply item_of_winner_step; [done | done | |].
      * unfold acquired. by rewrite Hpc.
      * rewrite Hl, Hkdb, DeleteItem_lookup.
        destruct (locks w !! db) as [x|]; [|by left].
        destruct (up && String.eqb (InstanceID x) h); [by right | by left].
    + destruct (worker_step_put up now w k Hpc) as [Hl ->].
      rewrite PutItem_locks, PutItem_result in *.
      cbn [DatabaseName newLockItem] in *. rewrite Hkdb in *.
      destruct (locks w !! db) as [y|] eqn:Hy.
      * eapply item_of_winner_step; [done | done | | left; by rewrite Hl].
        unfold acquired. by rewrite Hpc.
      * destruct up.
        -- intros x Hx _. cbn [fst snd] in *.
           rewrite Hl, lookup_insert_eq in Hx. simplify_eq.
           exists i. eexists. split;
             [apply list_lookup_insert_eq; by eapply lookup_lt_Some |].
           split; [done|]. by cbn.
        -- eapply item_of_winner_step; [done | done | | left; by rewrite Hl].
           unfold acquired. by rewrite Hpc.
    + rewrite (worker_step_returned up now w k r Hpc). cbn [fst snd].
      by rewrite list_insert_id.
  - unfold tick. intros x Hx Hlease. cbn [fst snd] in *.
    rewrite ttl_delete_lookup in Hx.
    destruct (locks w !! db) as [y|] eqn:Hy; [|done].
    assert (y = x) as ->.
    { destruct (decide (key = db)); [|by simplify_eq].
      destruct (LeaseTimeout y <? Unix now); by simplify_eq. }
    exact (Hinv x Hy Hlease).
Qed.

Lemma tick_db (db : string) (tk : Tick) (s : World * list Worker) :
  (forall j k, s.2 !! j = Some k -> w_db k = db) ->
  forall j k, (tick tk s).2 !! j = Some k -> w_db k = db.
Proof.
  intros Hdb. destruct s as [w ws]. cbn [fst snd] in *.
  destruct tk as [i up now | key now]; [|done].
  destruct (ws !! i) as [k|] eqn:Hk; [| by (unfold tick; cbn; rewrite Hk)].
  rewrite (tick_Run i up now w ws k Hk). cbn [snd]. intros j kj Hj.
  destruct (lookup_insert_worker ws i j k _ kj Hk Hj) as [[_ ->] | [_ Hj']];
    [|by eapply Hdb].
  rewrite worker_step_db. by eapply Hdb.
Qed.

Lemma item_of_winner_run (db : string) (t0 : Z) (sched : list Tick)
    (s : World * list Worker) :
  (forall j k, s.2 !! j = Some k -> w_db k = db) ->
  item_of_winner db t0 s -> item_of_winner db t0 (run sched s).
Proof.
  revert s. induction sched as [|tk sched IH]; intros s Hdb Hinv; [done|].
  cbn [run]. apply IH; [by apply tick_db | by apply item_of_winner_tick].
Qed.

(** X24.  At every point of a concurrent run, whichever requests fail, the
    table holds an unexpired item of a competing instance exactly when some
    invocation has acquired, and that item is the lease of the invocation
    that has acquired: it carries its instance id.  Otherwise the table
    holds no item or the expired one. *)
Theorem winner_lease_stays (db : string) (ids : list string) (t0 : Z)
    (w : World) (sched : list Tick) :
  free ids t0 (locks w !! db) ->
  Forall (in_window t0) sched ->
  ((exists i k, (run sched (w, start db ids)).2 !! i = Some k /\ acquired k)
   <-> held ids t0 (locks (run sched (w, start db ids)).1 !! db))
  /\ (free ids t0 (locks (run sched (w, start db ids)).1 !! db)
      \/ held ids t0 (locks (run sched (w, start db ids)).1 !! db))
  /\ (forall i k,
        (run sched (w, start db ids)).2 !! i = Some k -> acquired k ->
        exists x, locks (run sched (w, start db ids)).1 !! db = Some x
          /\ InstanceID x = w_id k
          /\ t0 + 300 <= LeaseTimeout x).
Proof.
  intros Hfree Hwin.
  assert (Htie : item_of_winner db t0 (run sched (w, start db ids))).
  { apply item_of_winner_run.
    - intros j k. unfold start. cbn [snd]. rewrite list_lookup_fmap.
      destruct (ids !! j); [|done]. by intros [= <-].
    - intros x Hx Hlease. cbn [fst] in Hx. unfold free in Hfree.
      rewrite Hx in Hfree. lia. }
  pose proof (inv_run db ids t0 false sched _ Hwin ltac:(done)
                (inv_start db ids t0 false w Hfree)) as [_ [[HA Hall] | [HB Hwon]]].
  - split; [|split; [by left|]].
    + split.
      * intros (i & k & Hi & Hacq). by destruct (Hall i k Hi).
      * intros Hheld. unfold free, held in *.
        destruct (locks (run sched (w, start db ids)).1 !! db) as [x|]; [|done].
        lia.
    + intros i k Hi Hacq. by destruct (Hall i k Hi).
  - split; [|split; [by right|]].
    + split; [done|].
      intros _. destruct Hwon as (i & [(k & Hi & Hk) _] & _). by exists i, k.
    + intros i k Hi Hacq. unfold held in HB.
      destruct (locks (run sched (w, start db ids)).1 !! db) as [x|] eqn:Hx;
        [|done].
      destruct HB as [Hlease _].
      destruct (Htie x Hx Hlease) as (i0 & k0 & Hi0 & Hk0 & Hid).
      destruct Hwon as (iw & [_ Hsole] & _).
      pose proof (Hsole i k Hi Hacq). pose proof (Hsole i0 k0 Hi0 Hk0).
      exists x. simplify_eq. done.
Qed.

Section BodyMembers.

Context {value : Type}.
Variable sqlite_Query : blob -> string -> QueryOutcome value * blob.
Variable sqlite_Exec : blob -> string -> ExecOutcome * blob.
Variable json_Unmarshal : string -> option APIRequest.
Variable encodable : value -> bool.

Local Abbreviation executeSQL := (executeSQL sqlite_Query sqlite_Exec).
Local Abbreviation Handler := (Handler sqlite_Query sqlite_Exec json_Unmarshal).
Local Abbreviation response_body := (response_body encodable).
Local Abbreviation row_encodable := (row_encodable encodable).

Lemma executeSQL_success_value (w w' : World) (path stmt : string)
    (result : SQLResult value) :
  executeSQL w path stmt = (inr result, w') ->
  exists m, m <> ""
    /\ if isSelect stmt
       then exists rows, result = mkSQLResult true (Some rows) m ""
       else result = mkSQLResult true None m "".
Proof.
  unfold executeSQL. destruct (isSelect stmt).
  - destruct (sqlite_Query _ _) as [[err|err|err|columns rows] file]; try done.
    destruct (scanRows columns rows []) as [err|results]; [done|].
    intros [= <- <-]. eexists. split; [|by eexists]. done.
  - destruct (sqlite_Exec _ _) as [[err|err|n] file]; try done.
    intros [= <- <-]. eexists. split; [|reflexivity]. done.
Qed.

(** The value that is marshalled into the body, by the status. *)
Lemma Handler_marshalled_value (e : Env) (w : World) (body : string) :
  Headers (Handler e w body).1 = jsonHeaders
  /\ ((StatusCode (Handler e w body).1 ∈ [400; 409; 500]
       /\ exists msg, msg <> ""
            /\ Body (Handler e w body).1 = mkSQLResult false None "" msg)
      \/ (StatusCode (Handler e w body).1 = 200
          /\ exists apiReq m, json_Unmarshal body = Some apiReq /\ m <> ""
               /\ if isSelect (SQLStatement apiReq)
                  then exists rows,
                         Body (Handler e w body).1
                         = mkSQLResult true (Some rows) m ""
                  else Body (Handler e w body).1 = mkSQLResult true None m "")).
Proof.
  assert (Herr : forall c msg, c ∈ [400; 409; 500] -> msg <> "" ->
    Headers (createErrorResponse (value := value) c msg) = jsonHeaders
    /\ ((StatusCode (createErrorResponse (value := value) c msg) ∈ [400; 409; 500]
         /\ exists msg', msg' <> ""
              /\ Body (createErrorResponse (value := value) c msg)
                 = mkSQLResult false None "" msg')
        \/ (StatusCode (createErrorResponse (value := value) c msg) = 200
            /\ exists apiReq m, json_Unmarshal body = Some apiReq /\ m <> ""
                 /\ if isSelect (SQLStatement apiReq)
                    then exists rows,
                           Body (createErrorResponse (value := value) c msg)
                           = mkSQLResult true (Some rows) m ""
                    else Body (createErrorResponse (value := value) c msg)
                         = mkSQLResult true None m ""))).
  { intros c msg Hc Hmsg. split; [done|]. left. split; [done|]. by exists msg. }
  assert (H400 : (400 : Z) ∈ [400; 409; 500]) by (apply elem_of_cons; by left).
  assert (H409 : (409 : Z) ∈ [400; 409; 500])
    by (apply elem_of_cons; right; apply elem_of_cons; by left).
  assert (H500 : (500 : Z) ∈ [400; 409; 500])
    by (do 2 (apply elem_of_cons; right); apply elem_of_cons; by left).
  pose proof (Handler_cases sqlite_Query sqlite_Exec json_Unmarshal e w body) as H.
  destruct (json_Unmarshal body) as [apiReq|] eqn:Hparse;
    [|rewrite H; by apply Herr].
  destruct (String.eqb (SQLStatement apiReq) "");
    [rewrite H; by apply Herr|].
  destruct (acquireDynamoLock _ _ _ _).1 as [err|];
    rewrite H; [by apply Herr|]. clear H.
  match goal with |- context [Handler_locked _ _ ?e0 ?w0 ?db0 ?st0 ?id0] =>
    pose proof (Handler_locked_cases sqlite_Query sqlite_Exec e0 w0 db0 st0 id0)
      as H;
    set (w1 := w0) in * end.
  destruct (downloadFromS3 e w1 _).1 as [err|path];
    [rewrite H; by apply Herr|].
  destruct (executeSQL _ path _) as [[err|result] w3] eqn:Hx;
    cbn [fst snd] in H; [rewrite H; by apply Herr|].
  rewrite H. cbn [fst].
  destruct (uploadToS3 e w3 path _).1 as [err|]; [by apply Herr|].
  split; [done|]. right. split; [done|].
  destruct (executeSQL_success_value _ _ _ _ _ Hx) as (m & Hm & Hres).
  exists apiReq, m. split; [done|]. split; [done|]. exact Hres.
Qed.

Lemma json_Marshal_error (msg : string) :
  msg <> "" ->
  json_Marshal encodable (mkSQLResult false None "" msg)
  = Some [("success", JBool false); ("error", JString msg)].
Proof.
  intros Hmsg. unfold json_Marshal, SQLResult_members. cbn.
  by destruct (String.eqb_spec msg "").
Qed.

Lemma json_Marshal_rows (rows : list (gmap string value)) (m : string) :
  m <> "" ->
  json_Marshal encodable (mkSQLResult true (Some rows) m "")
  = if forallb row_encodable rows
    then Some [("success", JBool true); ("data", JRows rows);
               ("message", JString m)]
    else None.
Proof.
  intros Hm. unfold json_Marshal, SQLResult_members. cbn.
  by destruct (String.eqb_spec m "").
Qed.

Lemma json_Marshal_done (m : string) :
  m <> "" ->
  json_Marshal encodable (mkSQLResult true None m "")
  = Some [("success", JBool true); ("message", JString m)].
Proof.
  intros Hm. unfold json_Marshal, SQLResult_members. cbn.
  by destruct (String.eqb_spec m "").
Qed.

(** X19.  Every response has the JSON content type and one of the statuses
    200, 400, 409 and 500.  Its body is empty only when the status is 200
    and a row of the result holds a value that JSON cannot encode;
    otherwise the body is a JSON object whose [success] member is true
    exactly when the status is 200. *)
Theorem Handler_body_agrees_with_status (e : Env) (w : World) (body : string) :
  Headers (Handler e w body).1 = jsonHeaders
  /\ StatusCode (Handler e w body).1 ∈ [200; 400; 409; 500]
  /\ (forall members, response_body (Handler e w body).1 = Some members ->
      (("success", JBool true) ∈ members <-> StatusCode (Handler e w body).1 = 200)
      /\ (("success", JBool false) ∈ members
          <-> StatusCode (Handler e w body).1 <> 200))
  /\ (response_body (Handler e w body).1 = None ->
      StatusCode (Handler e w body).1 = 200
      /\ exists rows, Data (Body (Handler e w body).1) = Some rows
           /\ forallb row_encodable rows = false).
Proof.
  destruct (Handler_marshalled_value e w body)
    as [Hh [[Hc (msg & Hmsg & Hb)] | [Hc (apiReq & m & _ & Hm & Hb)]]].
  - split; [done|]. split; [by apply elem_of_cons; right|].
    assert (Hne : StatusCode (Handler e w body).1 <> 200).
    { intros Heq. rewrite Heq in Hc. by repeat apply elem_of_cons in Hc as [?|Hc];
        try apply elem_of_nil in Hc. }
    unfold response_body. rewrite Hb, json_Marshal_error by done. split.
    + intros members [= <-]. split; split; try done.
      * intros Hin. by repeat apply elem_of_cons in Hin as [?|Hin];
          try apply elem_of_nil in Hin.
      * intros _. apply elem_of_cons. by left.
    + done.
  - split; [done|]. split; [rewrite Hc; apply elem_of_cons; by left|].
    unfold response_body.
    destruct (isSelect (SQLStatement apiReq)).
    + destruct Hb as (rows & ->). rewrite json_Marshal_rows by done. cbn [Body Data].
      destruct (forallb row_encodable rows) eqn:Henc.
      * split; [|done]. intros members [= <-]. split; split; try done.
        -- intros _. apply elem_of_cons. by left.
        -- intros Hin. by repeat apply elem_of_cons in Hin as [?|Hin];
             try apply elem_of_nil in Hin.
      * split; [done|]. intros _. split; [done|]. by exists rows.
    + rewrite Hb, json_Marshal_done by done.
      split; [|done]. intros members [= <-]. split; split; try done.
      * intros _. apply elem_of_cons. by left.
      * intros Hin. by repeat apply elem_of_cons in Hin as [?|Hin];
          try apply elem_of_nil in Hin.
Qed.

(** X20.  The body of a response with another status than 200 is the JSON
    object with the two members [success], false, and [error], not empty.
    The body of a 200 response for a statement that was run as a query is
    the object with [success], [data] and [message], or empty when a row
    holds a value that JSON cannot encode; for any other statement it is
    the object with [success] and [message]. *)
Theorem Handler_body_members (e : Env) (w : World) (body : string) :
  (StatusCode (Handler e w body).1 <> 200 ->
   exists msg, msg <> ""
     /\ response_body (Handler e w body).1
        = Some [("success", JBool false); ("error", JString msg)])
  /\ (StatusCode (Handler e w body).1 = 200 ->
      exists apiReq m, json_Unmarshal body = Some apiReq /\ m <> ""
        /\ if isSelect (SQLStatement apiReq)
           then exists rows,
                  Data (Body (Handler e w body).1) = Some rows
                  /\ response_body (Handler e w body).1
                     = if forallb row_encodable rows
                       then Some [("success", JBool true); ("data", JRows rows);
                                  ("message", JString m)]
                       else None
           else response_body (Handler e w body).1
                = Some [("success", JBool true); ("message", JString m)]).
Proof.
  destruct (Handler_marshalled_value e w body)
    as [_ [[Hc (msg & Hmsg & Hb)] | [Hc (apiReq & m & Hparse & Hm & Hb)]]].
  - split.
    + intros _. exists msg. split; [done|].
      unfold response_body. by rewrite Hb, json_Marshal_error.
    + intros Heq. rewrite Heq in Hc.
      by repeat apply elem_of_cons in Hc as [?|Hc]; try apply elem_of_nil in Hc.
  - split; [done|]. intros _. exists apiReq, m. split; [done|]. split; [done|].
    unfold response_body. destruct (isSelect (SQLStatement apiReq)).
    + destruct Hb as (rows & ->). exists rows. split; [done|].
      by rewrite json_Marshal_rows.
    + by rewrite Hb, json_Marshal_done.
Qed.

End BodyMembers.

(** ** Concrete runs *)

Lemma acquire_release_round_trip_witness :
  locks (releaseDynamoLock true
           (acquireDynamoLock (served_at 100 101) held_until_100
              "database.db" "lambda-2").2 "database.db" "lambda-2").2
  = delete "database.db" (locks held_until_100)
  /\ locks (releaseDynamoLock true
             (acquireDynamoLock (served_at 100 101) fresh_world
                "database.db" "lambda-2").2 "database.db" "lambda-2").2
     = locks fresh_world.
Proof.
  split.
  - destruct (acquire_release_round_trip (served_at 100 101) held_until_100
                "database.db" "lambda-2") as (_ & H & _);
      [vm_compute; reflexivity | exact H].
  - destruct (acquire_release_round_trip (served_at 100 101) fresh_world
                "database.db" "lambda-2") as (_ & _ & H);
      [vm_compute; reflexivity | apply H; reflexivity].
Defined.

Lemma acquire_keeps_valid_lease_witness :
  locks (acquireDynamoLock (no_put_at 50) held_until_100
           "database.db" "lambda-2").2
  = locks held_until_100.
Proof.
  destruct (acquire_keeps_valid_lease (no_put_at 50) held_until_100
              "database.db" "lambda-2"
              (mkLockItem "database.db" "lambda-1" 100 (-200))) as [_ H].
  - reflexivity.
  - vm_compute. reflexivity.
  - exact H.
Defined.

Lemma failed_acquire_writes_nothing_witness :
  locks (acquireDynamoLock (no_put_at 150) held_until_100
           "database.db" "lambda-2").2 = locks held_until_100
  \/ exists x, locks held_until_100 !! "database.db" = Some x
       /\ LeaseTimeout x <= Unix (check_now (no_put_at 150))
       /\ put_up (no_put_at 150) = false
       /\ locks (acquireDynamoLock (no_put_at 150) held_until_100
                   "database.db" "lambda-2").2
          = delete "database.db" (locks held_until_100).
Proof.
  apply (failed_acquire_writes_nothing (no_put_at 150) held_until_100
           "database.db" "lambda-2").
  vm_compute. discriminate.
Defined.

Lemma acquire_fails_when_expired_item_stays_witness :
  (acquireDynamoLock (no_expire_at 150) held_until_100
     "database.db" "lambda-2").1
  = Some (PutFailed ConditionalCheckFailedException)
  /\ locks (acquireDynamoLock (no_expire_at 150) held_until_100
             "database.db" "lambda-2").2 = locks held_until_100.
Proof.
  apply (acquire_fails_when_expired_item_stays (no_expire_at 150) held_until_100
           "database.db" "lambda-2"
           (mkLockItem "database.db" "lambda-1" 100 (-200))).
  - reflexivity.
  - reflexivity.
  - reflexivity.
  - vm_compute. discriminate.
Defined.

Lemma release_twice_witness :
  (releaseDynamoLock true
     (releaseDynamoLock true held_until_100 "database.db" "lambda-1").2
     "database.db" "lambda-1").1
  = Some ConditionalCheckFailedException.
Proof.
  destruct (release_twice true true held_until_100 "database.db" "lambda-1")
    as [H _]; [vm_compute; reflexivity | exact H].
Defined.

Lemma lease_blocks_for_300_seconds_witness :
  (acquireDynamoLock (served_at 300 300)
     (acquireDynamoLock (served_at 1 1) fresh_world "database.db" "lambda-2").2
     "database.db" "lambda-3").1
  = Some (Locked "lambda-2" (Unix (lease_now (served_at 1 1)) + 300))
  /\ (acquireDynamoLock (served_at 301 301)
        (acquireDynamoLock (served_at 1 1) fresh_world "database.db" "lambda-2").2
        "database.db" "lambda-3").1 = None.
Proof.
  split.
  - destruct (lease_blocks_for_300_seconds (served_at 1 1) (served_at 300 300)
                fresh_world "database.db" "lambda-2" "lambda-3") as [H _].
    + vm_compute. reflexivity.
    + reflexivity.
    + destruct H as [H _]; [vm_compute; reflexivity | exact H].
  - destruct (lease_blocks_for_300_seconds (served_at 1 1) (served_at 301 301)
                fresh_world "database.db" "lambda-2" "lambda-3") as [_ H].
    + vm_compute. reflexivity.
    + reflexivity.
    + destruct H as [H _];
        [vm_compute; discriminate | reflexivity | reflexivity | exact H].
Defined.

Lemma late_release_leaves_new_holder_witness :
  (releaseDynamoLock true
     (acquireDynamoLock (served_at 301 301)
        (acquireDynamoLock (served_at 1 1) fresh_world "database.db" "lambda-2").2
        "database.db" "lambda-3").2 "database.db" "lambda-2").1
  = Some ConditionalCheckFailedException
  /\ locks (releaseDynamoLock true
       (acquireDynamoLock (served_at 301 301)
          (acquireDynamoLock (served_at 1 1) fresh_world "database.db"
             "lambda-2").2
          "database.db" "lambda-3").2 "database.db" "lambda-2").2
       !! "database.db"
     = Some (newLockItem "database.db" "lambda-3" (lease_now (served_at 301 301))).
Proof.
  apply (late_release_leaves_new_holder (served_at 1 1) (served_at 301 301) true
           fresh_world "database.db" "lambda-2" "lambda-3").
  - discriminate.
  - vm_compute. reflexivity.
  - vm_compute. reflexivity.
Defined.

Lemma download_succeeds_iff_witness :
  (exists path, (downloadFromS3 demo_env stored_world "database.db").1 = inr path)
  /\ tmp (downloadFromS3 demo_env stored_world "database.db").2
       !! "/tmp/database.db"
     = bucket stored_world !! "database.db".
Proof.
  destruct (download_succeeds_iff demo_env stored_world "database.db")
    as ([_ Hiff] & Hpath & _).
  split.
  - apply Hiff. repeat split; try reflexivity. by eexists.
  - apply (Hpath "/tmp/database.db"). vm_compute. reflexivity.
Defined.

Lemma upload_succeeds_iff_witness :
  (uploadToS3 demo_env stored_world "/tmp/database.db" "database.db").2
  = stored_world
  /\ bucket (uploadToS3 demo_env_no_put
               (downloadFromS3 demo_env stored_world "database.db").2
               "/tmp/database.db" "database.db").2
     = bucket (downloadFromS3 demo_env stored_world "database.db").2.
Proof.
  split.
  - destruct (upload_succeeds_iff demo_env stored_world "/tmp/database.db"
                "database.db") as (_ & _ & _ & H).
    apply H. right. reflexivity.
  - destruct (upload_succeeds_iff demo_env_no_put
                (downloadFromS3 demo_env stored_world "database.db").2
                "/tmp/database.db" "database.db") as (_ & _ & H & _).
    apply H. vm_compute. discriminate.
Defined.

Lemma Handler_rejects_without_effect_witness :
  (demo_Handler demo_env demo_world "{").2 = demo_world.
Proof.
  destruct (Handler_rejects_without_effect demo_Query demo_Exec demo_Unmarshal
              demo_env demo_world "{") as [[_ Hiff] Hw].
  apply Hw, Hiff. left. reflexivity.
Defined.

Lemma Handler_without_lock_stops_witness :
  demo_Handler (demo_env_at 50) held_until_100 "SELECT 1"
  = (createErrorResponse 409
       ("Failed to acquire lock: "
        +:+ AcquireError_Error (Locked "lambda-1" 100)),
     (acquireDynamoLock (lock_env (demo_env_at 50)) held_until_100
        "database.db" "lambda-7000000000").2).
Proof.
  destruct (Handler_without_lock_stops demo_Query demo_Exec demo_Unmarshal
              (demo_env_at 50) held_until_100 "SELECT 1"
              (mkAPIRequest "SELECT 1" "") (Locked "lambda-1" 100)) as [H _].
  - reflexivity.
  - discriminate.
  - vm_compute. reflexivity.
  - exact H.
Defined.

Lemma Handler_snapshot_requests_under_lock_witness :
  exists mid,
    calls (demo_Handler demo_env demo_world "SELECT 1").2
    = calls (acquireDynamoLock (lock_env demo_env) demo_world
               "database.db" "lambda-7000000000").2
      ++ mid ++ [CDeleteItem "database.db" "lambda-7000000000"]
    /\ Forall (fun c => is_dynamo_call c = false) mid.
Proof.
  apply (Handler_snapshot_requests_under_lock demo_Query demo_Exec
           demo_Unmarshal demo_env demo_world "SELECT 1"
           (mkAPIRequest "SELECT 1" "")).
  - reflexivity.
  - discriminate.
  - vm_compute. reflexivity.
Defined.

Lemma Handler_lock_table_after_witness :
  locks (demo_Handler demo_env held_until_100 "SELECT 1").2
  = delete "database.db" (locks held_until_100).
Proof.
  apply (Handler_lock_table_after demo_Query demo_Exec demo_Unmarshal
           demo_env held_until_100 "SELECT 1" (mkAPIRequest "SELECT 1" "")).
  - reflexivity.
  - discriminate.
  - vm_compute. reflexivity.
  - reflexivity.
Defined.


Lemma Handler_success_publishes_witness :
  (exists content,
     bucket stored_world !! "database.db" = Some content
     /\ bucket (demo_Handler demo_env stored_world "UPDATE t SET v = 0").2
        = <["database.db" := content ++ [x2a]]> (bucket stored_world))
  /\ bucket (Handler reading_Query demo_Exec demo_Unmarshal demo_env
               stored_world "SELECT 1").2
     = bucket stored_world.
Proof.
  split.
  - destruct (Handler_success_publishes demo_Query demo_Exec demo_Unmarshal
                demo_env stored_world "UPDATE t SET v = 0"
                (mkAPIRequest "UPDATE t SET v = 0" ""))
      as (content & Hc & Hb & _).
    + reflexivity.
    + reflexivity.
    + vm_compute. reflexivity.
    + exists content. split; [exact Hc | exact Hb].
  - destruct (Handler_success_publishes reading_Query demo_Exec demo_Unmarshal
                demo_env stored_world "SELECT 1" (mkAPIRequest "SELECT 1" ""))
      as (content & _ & _ & Hsame).
    + reflexivity.
    + reflexivity.
    + vm_compute. reflexivity.
    + apply Hsame. reflexivity.
Defined.

Lemma failed_publish_keeps_bucket_witness :
  (demo_Handler demo_env_no_put stored_world "UPDATE t SET v = 0").1
  = createErrorResponse 500
      ("Failed to upload database: failed to upload object to S3: "
       +:+ awserr_Error RequestFailure)
  /\ bucket (demo_Handler demo_env_no_put stored_world "UPDATE t SET v = 0").2
     = bucket stored_world.
Proof.
  edestruct (failed_publish_keeps_bucket demo_Query demo_Exec demo_Unmarshal
               demo_env_no_put stored_world "UPDATE t SET v = 0"
               (mkAPIRequest "UPDATE t SET v = 0" "")
               (acquireDynamoLock (lock_env demo_env_no_put) stored_world
                  "database.db" "lambda-7000000000").2
               (downloadFromS3 demo_env_no_put
                  (acquireDynamoLock (lock_env demo_env_no_put) stored_world
                     "database.db" "lambda-7000000000").2 "database.db").2
               (executeSQL demo_Query demo_Exec
                  (downloadFromS3 demo_env_no_put
                     (acquireDynamoLock (lock_env demo_env_no_put) stored_world
                        "database.db" "lambda-7000000000").2 "database.db").2
                  "/tmp/database.db" "UPDATE t SET v = 0").2
               "/tmp/database.db"
               ("failed to upload object to S3: " +:+ awserr_Error RequestFailure)
               (mkSQLResult true None
                  "Query executed successfully, 3 rows affected" ""))
    as (Hresp & Hb & _).
  - reflexivity.
  - discriminate.
  - vm_compute. reflexivity.
  - vm_compute. reflexivity.
  - vm_compute. reflexivity.
  - vm_compute. reflexivity.
  - split; [exact Hresp | exact Hb].
Defined.


Lemma Handler_body_agrees_with_status_witness :
  StatusCode (demo_Handler demo_env stored_world "SELECT 1").1 = 200
  /\ response_body demo_encodable (demo_Handler demo_env stored_world "SELECT 1").1
     = None
  /\ (exists rows,
        Data (Body (demo_Handler demo_env stored_world "SELECT 1").1) = Some rows
        /\ forallb (row_encodable demo_encodable) rows = false)
  /\ (("success", JBool (value := Z) true)
        ∈ [("success", JBool true);
           ("message", JString "Query executed successfully, 3 rows affected")]
      <-> StatusCode (demo_Handler demo_env stored_world "UPDATE t SET v = 0").1
          = 200).
Proof.
  destruct (Handler_body_agrees_with_status demo_Query demo_Exec demo_Unmarshal
              demo_encodable demo_env stored_world "SELECT 1")
    as (_ & _ & _ & Hempty).
  destruct (Handler_body_agrees_with_status demo_Query demo_Exec demo_Unmarshal
              demo_encodable demo_env stored_world "UPDATE t SET v = 0")
    as (_ & _ & Hsome & _).
  assert (Hnone : response_body demo_encodable
                    (demo_Handler demo_env stored_world "SELECT 1").1 = None)
    by (vm_compute; reflexivity).
  destruct (Hempty Hnone) as [H200 Hrows].
  split; [exact H200|]. split; [exact Hnone|]. split; [exact Hrows|].
  destruct (Hsome [("success", JBool true);
                   ("message",
                    JString "Query executed successfully, 3 rows affected")])
    as [Htrue _]; [vm_compute; reflexivity | exact Htrue].
Defined.

Lemma Handler_body_members_witness :
  (exists msg, msg <> ""
     /\ response_body demo_encodable
          (demo_Handler demo_env fresh_world "SELECT 1").1
        = Some [("success", JBool false); ("error", JString msg)])
  /\ (exists apiReq m, demo_Unmarshal "UPDATE t SET v = 0" = Some apiReq /\ m <> ""
        /\ if isSelect (SQLStatement apiReq)
           then exists rows,
                  Data (Body (demo_Handler demo_env stored_world
                                "UPDATE t SET v = 0").1) = Some rows
                  /\ response_body demo_encodable
                       (demo_Handler demo_env stored_world "UPDATE t SET v = 0").1
                     = if forallb (row_encodable demo_encodable) rows
                       then Some [("success", JBool true); ("data", JRows rows);
                                  ("message", JString m)]
                       else None
           else response_body demo_encodable
                  (demo_Handler demo_env stored_world "UPDATE t SET v = 0").1
                = Some [("success", JBool true); ("message", JString m)]).
Proof.
  split.
  - destruct (Handler_body_members demo_Query demo_Exec demo_Unmarshal
                demo_encodable demo_env fresh_world "SELECT 1") as [H _].
    apply H. vm_compute. discriminate.
  - destruct (Handler_body_members demo_Query demo_Exec demo_Unmarshal
                demo_encodable demo_env stored_world "UPDATE t SET v = 0")
      as [_ H].
    apply H. vm_compute. reflexivity.
Defined.

Lemma scanRows_all_or_first_error_witness :
  scanRows ["n"] [inr [1]; inl "bad value"; inr [2]; inl "worse"] []
  = inl ("failed to scan row: " +:+ "bad value").
Proof.
  destruct (scanRows_all_or_first_error (value := Z) ["n"]
              [inr [1]; inl "bad value"; inr [2]; inl "worse"]) as [_ H].
  apply H. exists [[1]], "bad value", [inr [2]; inl "worse"]. split; reflexivity.
Defined.

Lemma makeRow_lookup_column_witness :
  makeRow ["id"; "v"] [1; 10] !! "v" = Some 10.
Proof.
  apply (makeRow_lookup_column ["id"; "v"] [1; 10] 1%nat "v" 10).
  - apply NoDup_cons. split.
    + intros Hin. apply elem_of_cons in Hin as [Heq|Hin]; [discriminate|].
      by apply elem_of_nil in Hin.
    + apply NoDup_singleton.
  - reflexivity.
  - reflexivity.
Defined.

Lemma winner_lease_stays_witness :
  exists x,
    locks (run reclaim_race
             (held_until_100, start "database.db" ["lambda-2"; "lambda-3"])).1
      !! "database.db" = Some x
    /\ InstanceID x = "lambda-3"
    /\ 100 + 300 <= LeaseTimeout x.
Proof.
  destruct (winner_lease_stays "database.db" ["lambda-2"; "lambda-3"] 100
              held_until_100 reclaim_race) as (_ & _ & H).
  - unfold free.
    replace (locks held_until_100 !! "database.db")
      with (Some (mkLockItem "database.db" "lambda-1" 100 (-200)))
      by reflexivity.
    cbn. split; [lia|]. intros Hin.
    apply elem_of_cons in Hin as [Heq|Hin]; [discriminate|].
    apply elem_of_cons in Hin as [Heq|Hin]; [discriminate|].
    by apply elem_of_nil in Hin.
  - repeat constructor; vm_compute; congruence.
  - apply (H 1%nat (mkWorker "database.db" "lambda-3" (Returned None)));
      vm_compute; reflexivity.
Defined.

(** ** Successive invocations *)

Section Successive.

Context {value : Type}.
Variable sqlite_Query : blob -> string -> QueryOutcome value * blob.
Variable sqlite_Exec : blob -> string -> ExecOutcome * blob.
Variable json_Unmarshal : string -> option APIRequest.

Local Abbreviation Handler := (Handler sqlite_Query sqlite_Exec json_Unmarshal).

(** The lock table after an invocation that acquired the lock. *)
Lemma Handler_locks_after (e : Env) (w : World) (body : string)
    (apiReq : APIRequest) :
  json_Unmarshal body = Some apiReq ->
  SQLStatement apiReq <> "" ->
  (acquireDynamoLock (lock_env e) w (requestDatabaseName apiReq)
     (newInstanceID (instance_now e))).1 = None ->
  locks (Handler e w body).2 !! requestDatabaseName apiReq
  = if release_up e then None
    else Some (newLockItem (requestDatabaseName apiReq)
                 (newInstanceID (instance_now e)) (lease_now (lock_env e))).
Proof.
  intros Hparse Hstmt Hacq.
  pose proof (Handler_cases sqlite_Query sqlite_Exec json_Unmarshal e w body) as H.
  rewrite Hparse, Hacq in H.
  destruct (String.eqb_spec (SQLStatement apiReq) ""); [done|].
  rewrite H. clear H.
  pose proof (acquire_stores_item _ _ _ _ Hacq) as Hl.
  destruct (Handler_locked_release sqlite_Query sqlite_Exec e
              (acquireDynamoLock (lock_env e) w (requestDatabaseName apiReq)
                 (newInstanceID (instance_now e))).2
              (requestDatabaseName apiReq) (SQLStatement apiReq)
              (newInstanceID (instance_now e))) as (w2 & Hw2 & ->).
  unfold releaseDynamoLock.
  rewrite DeleteItem_lookup, Hw2, Hl, newLockItem_fields. cbn.
  rewrite String.eqb_refl. by destruct (release_up e).
Qed.

Lemma Handler_status_by_lock (e : Env) (w : World) (body : string)
    (apiReq : APIRequest) :
  json_Unmarshal body = Some apiReq ->
  SQLStatement apiReq <> "" ->
  (StatusCode (Handler e w body).1 = 409
   <-> (acquireDynamoLock (lock_env e) w (requestDatabaseName apiReq)
          (newInstanceID (instance_now e))).1 <> None).
Proof.
  intros Hparse Hstmt.
  pose proof (Handler_cases sqlite_Query sqlite_Exec json_Unmarshal e w body) as H.
  rewrite Hparse in H.
  destruct (String.eqb_spec (SQLStatement apiReq) ""); [done|].
  destruct (acquireDynamoLock _ _ _ _).1 as [err|]; rewrite H; [done|].
  split; [|done].
  match goal with |- context [Handler_locked _ _ ?e0 ?w0 ?db0 ?st0 ?id0] =>
    by destruct (Handler_locked_status sqlite_Query sqlite_Exec e0 w0 db0 st0 id0)
      as [-> | ->] end.
Qed.

(** X25.  After an invocation that acquired the lock and whose release was
    served, the next invocation on the same database is not answered 409,
    at whatever time it runs, when its requests to the lock table are
    served. *)
Theorem next_invocation_not_blocked (e1 e2 : Env) (w : World)
    (body1 body2 : string) (req1 req2 : APIRequest) :
  json_Unmarshal body1 = Some req1 -> SQLStatement req1 <> "" ->
  json_Unmarshal body2 = Some req2 -> SQLStatement req2 <> "" ->
  requestDatabaseName req2 = requestDatabaseName req1 ->
  (acquireDynamoLock (lock_env e1) w (requestDatabaseName req1)
     (newInstanceID (instance_now e1))).1 = None ->
  release_up e1 = true ->
  get_up (lock_env e2) = true -> put_up (lock_env e2) = true ->
  StatusCode (Handler e2 (Handler e1 w body1).2 body2).1 <> 409.
Proof.
  intros Hp1 Hs1 Hp2 Hs2 Hdb Hacq Hrel Hget Hput.
  pose proof (Handler_locks_after e1 w body1 req1 Hp1 Hs1 Hacq) as Hl.
  rewrite Hrel in Hl.
  rewrite (Handler_status_by_lock e2 _ body2 req2 Hp2 Hs2), Hdb.
  destruct (acquire_absent (lock_env e2) (Handler e1 w body1).2
              (requestDatabaseName req1) (newInstanceID (instance_now e2))
              Hget Hput Hl) as [-> _].
  auto.
Qed.

(** X26.  After an invocation that acquired the lock and whose release was
    not served, every invocation on the same database whose check is before
    the expiry of that lease is answered 409; from the expiry on a served
    invocation is not. *)
Theorem unreleased_lock_blocks_until_expiry (e1 e2 : Env) (w : World)
    (body1 body2 : string) (req1 req2 : APIRequest) :
  json_Unmarshal body1 = Some req1 -> SQLStatement req1 <> "" ->
  json_Unmarshal body2 = Some req2 -> SQLStatement req2 <> "" ->
  requestDatabaseName req2 = requestDatabaseName req1 ->
  (acquireDynamoLock (lock_env e1) w (requestDatabaseName req1)
     (newInstanceID (instance_now e1))).1 = None ->
  release_up e1 = false ->
  (Unix (check_now (lock_env e2)) < Unix (lease_now (lock_env e1)) + 300 ->
   StatusCode (Handler e2 (Handler e1 w body1).2 body2).1 = 409)
  /\ (Unix (lease_now (lock_env e1)) + 300 <= Unix (check_now (lock_env e2)) ->
      get_up (lock_env e2) = true -> expire_up (lock_env e2) = true ->
      put_up (lock_env e2) = true ->
      StatusCode (Handler e2 (Handler e1 w body1).2 body2).1 <> 409).
Proof.
  intros Hp1 Hs1 Hp2 Hs2 Hdb Hacq Hrel.
  pose proof (Handler_locks_after e1 w body1 req1 Hp1 Hs1 Hacq) as Hl.
  rewrite Hrel, newLockItem_fields in Hl.
  rewrite (Handler_status_by_lock e2 _ body2 req2 Hp2 Hs2), Hdb.
  pose proof (acquire_outcome (lock_env e2) (Handler e1 w body1).2
                (requestDatabaseName req1) (newInstanceID (instance_now e2))) as H.
  rewrite Hl in H. cbn in H. apply (f_equal fst) in H. cbn [fst] in H.
  split.
  - intros Hlt. rewrite H.
    destruct (Z.gtb_spec (Unix (lease_now (lock_env e1)) + 300)
                (Unix (check_now (lock_env e2)))); [|lia].
    by destruct (get_up (lock_env e2)).
  - intros Hle Hget Hexp Hput. rewrite H, Hget, Hexp, Hput.
    destruct (Z.gtb_spec (Unix (lease_now (lock_env e1)) + 300)
                (Unix (check_now (lock_env e2)))); [lia|].
    cbn. auto.
Qed.

End Successive.

Lemma next_invocation_not_blocked_witness :
  StatusCode (demo_Handler (demo_env_at 201)
                (demo_Handler demo_env stored_world "UPDATE t SET v = 0").2
                "SELECT 1").1 <> 409.
Proof.
  apply (next_invocation_not_blocked demo_Query demo_Exec demo_Unmarshal
           demo_env (demo_env_at 201) stored_world
           "UPDATE t SET v = 0" "SELECT 1"
           (mkAPIRequest "UPDATE t SET v = 0" "") (mkAPIRequest "SELECT 1" "")).
  - reflexivity.
  - discriminate.
  - reflexivity.
  - discriminate.
  - reflexivity.
  - vm_compute. reflexivity.
  - reflexivity.
  - reflexivity.
  - reflexivity.
Defined.

Lemma unreleased_lock_blocks_until_expiry_witness :
  StatusCode (demo_Handler (demo_env_at 499)
                (demo_Handler demo_env_no_release stored_world
                   "UPDATE t SET v = 0").2 "SELECT 1").1 = 409
  /\ StatusCode (demo_Handler (demo_env_at 500)
                   (demo_Handler demo_env_no_release stored_world
                      "UPDATE t SET v = 0").2 "SELECT 1").1 <> 409.
Proof.
  split.
  - destruct (unreleased_lock_blocks_until_expiry demo_Query demo_Exec
                demo_Unmarshal demo_env_no_release (demo_env_at 499) stored_world
                "UPDATE t SET v = 0" "SELECT 1"
                (mkAPIRequest "UPDATE t SET v = 0" "")
                (mkAPIRequest "SELECT 1" "")) as [H _];
      [reflexivity | discriminate | reflexivity | discriminate | reflexivity
      | vm_compute; reflexivity | reflexivity |].
    apply H. vm_compute. reflexivity.
  - destruct (unreleased_lock_blocks_until_expiry demo_Query demo_Exec
                demo_Unmarshal demo_env_no_release (demo_env_at 500) stored_world
                "UPDATE t SET v = 0" "SELECT 1"
                (mkAPIRequest "UPDATE t SET v = 0" "")
                (mkAPIRequest "SELECT 1" "")) as [_ H];
      [reflexivity | discriminate | reflexivity | discriminate | reflexivity
      | vm_compute; reflexivity | reflexivity |].
    apply H; [vm_compute; discriminate | reflexivity | reflexivity | reflexivity].
Defined.
